(** * Sentiment-driven transcript cutter: the two analyze routes

    A shallow embedding of [src/app/api/analyze/route.ts] (the upload
    entry point) and of its near-duplicate webhook route, followed by the
    properties the specification states about them.

    Conventions of the embedding.
    - A JavaScript string is the list of its UTF-16 code units ([jsstring]).
    - A JavaScript number is a [number]: an exact rational, one of the two
      infinities, or NaN.  Finite arithmetic is exact (binary64 rounding
      and the sign of zero are not represented); every finite result is
      kept in lowest terms, so that equal numbers are equal terms.
    - The [sentiment] package is not part of the repository: the scorer is a
      parameter [analyze] of everything that calls it.
    - The regular expressions are compiled by hand into the scanners they
      denote; each scanner's comment gives the pattern and the argument for
      the cases where backtracking cannot change the outcome. *)

From Stdlib Require Import List Bool Arith NArith ZArith QArith Qminmax Lia.
From Stdlib Require Import Ascii String DecimalString.
Import ListNotations.

Set Implicit Arguments.

(** ** JavaScript strings *)

Definition jsstring := list N.

(** Code units of an ASCII literal. *)
Definition js (s : string) : jsstring :=
  List.map N_of_ascii (list_ascii_of_string s).

Definition LF : N := 10%N.
Definition QUOTE : N := 34%N.

Definition isDigit (c : N) : bool := ((48 <=? c) && (c <=? 57))%N.

(** LineTerminator: LF, CR, LS, PS. *)
Definition isLineTerminator (c : N) : bool :=
  existsb (N.eqb c) [10; 13; 8232; 8233]%N.

(** WhiteSpace and LineTerminator code units: what [\s] matches and what
    [trim] strips. *)
Definition isWhiteSpace (c : N) : bool :=
  existsb (N.eqb c)
    [9; 10; 11; 12; 13; 32; 160; 5760; 8232; 8233; 8239; 8287; 12288; 65279]%N
  || ((8192 <=? c) && (c <=? 8202))%N.

(** [.], [!], [?] *)
Definition isTerminator (c : N) : bool :=
  existsb (N.eqb c) [46; 33; 63]%N.

(** Longest prefix whose elements satisfy [p], and the rest. *)
Fixpoint span (A : Type) (p : A -> bool) (l : list A) : list A * list A :=
  match l with
  | [] => ([], [])
  | c :: l' =>
      if p c then let (a, r) := span p l' in (c :: a, r) else ([], l)
  end.

Fixpoint dropWhile (A : Type) (p : A -> bool) (l : list A) : list A :=
  match l with
  | [] => []
  | c :: l' => if p c then dropWhile p l' else l
  end.

Definition trimStart (s : jsstring) : jsstring := dropWhile isWhiteSpace s.
Definition trimEnd (s : jsstring) : jsstring :=
  rev (dropWhile isWhiteSpace (rev s)).
Definition trim (s : jsstring) : jsstring := trimEnd (trimStart s).

(** [s.split('\n')]: always at least one piece. *)
Fixpoint split_lines (s : jsstring) : list jsstring :=
  match s with
  | [] => [[]]
  | c :: s' =>
      if N.eqb c LF then [] :: split_lines s'
      else match split_lines s' with
           | [] => [[c]]
           | l :: ls => (c :: l) :: ls
           end
  end.

(** [s.replace(/\n/g, ' ')] *)
Definition replace_newlines (s : jsstring) : jsstring :=
  List.map (fun c => if N.eqb c LF then 32%N else c) s.

(** [sep]-joined concatenation, [Array.prototype.join]. *)
Fixpoint join (sep : jsstring) (l : list jsstring) : jsstring :=
  match l with
  | [] => []
  | [x] => x
  | x :: l' => x ++ sep ++ join sep l'
  end.

(** Does [s] begin with [pre]?  The remainder when it does. *)
Fixpoint strip_prefix (pre s : jsstring) : option jsstring :=
  match pre, s with
  | [], _ => Some s
  | p :: pre', c :: s' => if N.eqb p c then strip_prefix pre' s' else None
  | _ :: _, [] => None
  end.

(** ** JavaScript numbers *)

Inductive number : Type :=
| Fin (q : Q)
| PInf
| NInf
| NaN.

Definition fin (q : Q) : number := Fin (Qred q).
Definition of_nat (n : nat) : number := Fin (inject_Z (Z.of_nat n)).
Definition of_Z (z : Z) : number := Fin (inject_Z z).

Definition Qsign (q : Q) : comparison := Qcompare q 0.

Definition nadd (a b : number) : number :=
  match a, b with
  | NaN, _ | _, NaN => NaN
  | Fin x, Fin y => fin (x + y)
  | PInf, NInf | NInf, PInf => NaN
  | PInf, _ | _, PInf => PInf
  | NInf, _ | _, NInf => NInf
  end.

Definition nneg (a : number) : number :=
  match a with
  | Fin x => fin (- x)
  | PInf => NInf
  | NInf => PInf
  | NaN => NaN
  end.

Definition nsub (a b : number) : number := nadd a (nneg b).

(** An infinity times a number of the given sign. *)
Definition inf_signed (pos : bool) (s : comparison) : number :=
  match s with
  | Eq => NaN
  | Gt => if pos then PInf else NInf
  | Lt => if pos then NInf else PInf
  end.

Definition nmul (a b : number) : number :=
  match a, b with
  | NaN, _ | _, NaN => NaN
  | Fin x, Fin y => fin (x * y)
  | PInf, Fin y | Fin y, PInf => inf_signed true (Qsign y)
  | NInf, Fin y | Fin y, NInf => inf_signed false (Qsign y)
  | PInf, PInf | NInf, NInf => PInf
  | PInf, NInf | NInf, PInf => NInf
  end.

Definition ndiv (a b : number) : number :=
  match a, b with
  | NaN, _ | _, NaN => NaN
  | Fin x, Fin y =>
      match Qsign y with
      | Eq => inf_signed true (Qsign x)
      | _ => fin (x / y)
      end
  | Fin _, (PInf | NInf) => Fin 0
  | PInf, Fin y => match Qsign y with Lt => NInf | _ => PInf end
  | NInf, Fin y => match Qsign y with Lt => PInf | _ => NInf end
  | (PInf | NInf), (PInf | NInf) => NaN
  end.

(** [a >= b] *)
Definition nge (a b : number) : bool :=
  match a, b with
  | NaN, _ | _, NaN => false
  | Fin x, Fin y => Qle_bool y x
  | PInf, _ => true
  | _, NInf => true
  | _, PInf => false
  | NInf, _ => false
  end.

(** [a < b] *)
Definition nlt (a b : number) : bool :=
  match a, b with
  | NaN, _ | _, NaN => false
  | Fin x, Fin y => negb (Qle_bool y x)
  | PInf, _ => false
  | _, NInf => false
  | _, PInf => true
  | NInf, _ => true
  end.

(** [Math.max(a, b)] and [Math.min(a, b)] *)
Definition Math_max (a b : number) : number :=
  match a, b with
  | NaN, _ | _, NaN => NaN
  | _, _ => if nge a b then a else b
  end.

Definition Math_min (a b : number) : number :=
  match a, b with
  | NaN, _ | _, NaN => NaN
  | _, _ => if nge b a then a else b
  end.

(** [s.length] as a number. *)
Definition length_of (s : jsstring) : number := of_nat (List.length s).

Arguments Fin q%_Q.

(** ** Built-in conversions between strings and numbers *)

(** Value of a code unit as a digit in the given radix (10 or 16). *)
Definition digit_value (radix : N) (c : N) : option N :=
  let v :=
    if isDigit c then Some (c - 48)%N
    else if ((97 <=? c) && (c <=? 102))%N then Some (c - 87)%N
    else if ((65 <=? c) && (c <=? 70))%N then Some (c - 55)%N
    else None in
  match v with
  | Some d => if (d <? radix)%N then Some d else None
  | None => None
  end.

(** Reads the longest prefix of radix digits: the digits seen so far, their
    value, and how many were read. *)
Fixpoint read_digits (radix : N) (acc : N) (seen : nat) (s : jsstring)
  : N * nat :=
  match s with
  | [] => (acc, seen)
  | c :: s' =>
      match digit_value radix c with
      | Some d => read_digits radix (acc * radix + d)%N (S seen) s'
      | None => (acc, seen)
      end
  end.

(** [parseInt(s)] with no radix argument. *)
Definition parseInt (s : jsstring) : number :=
  let s := trimStart s in
  let (negative, s) :=
    match s with
    | 45%N :: s' => (true, s')
    | 43%N :: s' => (false, s')
    | _ => (false, s)
    end in
  let (radix, s) :=
    match s with
    | 48%N :: (120%N | 88%N) :: s' => (16%N, s')
    | _ => (10%N, s)
    end in
  match read_digits radix 0 0 s with
  | (_, O) => NaN
  | (v, _) => if negative then of_Z (- Z.of_N v) else of_Z (Z.of_N v)
  end.

(** [parseFloat(s)]: the longest prefix that is a decimal literal. *)
Definition parseFloat (s : jsstring) : number :=
  let s := trimStart s in
  let (negative, s) :=
    match s with
    | 45%N :: s' => (true, s')
    | 43%N :: s' => (false, s')
    | _ => (false, s)
    end in
  match strip_prefix (js "Infinity") s with
  | Some _ => if negative then NInf else PInf
  | None =>
      let (ip, r1) := span isDigit s in
      let (fp, r2) :=
        match r1 with
        | 46%N :: r => span isDigit r
        | _ => ([], r1)
        end in
      match ip ++ fp with
      | [] => NaN
      | _ =>
          let exponent : Z :=
            match r2 with
            | (101%N | 69%N) :: r =>
                let (eneg, r) :=
                  match r with
                  | 45%N :: r' => (true, r')
                  | 43%N :: r' => (false, r')
                  | _ => (false, r)
                  end in
                match read_digits 10 0 0 r with
                | (_, O) => 0%Z
                | (e, _) => if eneg then (- Z.of_N e)%Z else Z.of_N e
                end
            | _ => 0%Z
            end in
          let mantissa : Q :=
            inject_Z (Z.of_N (fst (read_digits 10 0 0 ip)))
            + inject_Z (Z.of_N (fst (read_digits 10 0 0 fp)))
              / inject_Z (10 ^ Z.of_nat (List.length fp)) in
          let v := (mantissa * Qpower 10 exponent)%Q in
          fin (if negative then - v else v)
      end
  end.

(** Decimal digits of a natural number. *)
Definition decimal (n : N) : jsstring :=
  js (NilZero.string_of_uint (N.to_uint n)).

(** Digits of the fraction [r / d] (with [0 <= r < d]), at most [fuel] of
    them. *)
Fixpoint fraction_digits (fuel : nat) (r d : Z) : jsstring :=
  match fuel with
  | O => []
  | S fuel' =>
      if (r =? 0)%Z then []
      else (48 + Z.to_N (10 * r / d))%N
           :: fraction_digits fuel' ((10 * r) mod d)%Z d
  end.

(** [String(x)], as template literals apply it.  Finite decimals of up to
    twenty fractional digits print exactly; exponent notation is not
    represented. *)
Definition toString (x : number) : jsstring :=
  match x with
  | NaN => js "NaN"
  | PInf => js "Infinity"
  | NInf => js "-Infinity"
  | Fin q =>
      let n := Z.abs (Qnum q) in
      let d := Zpos (Qden q) in
      (if (Qnum q <? 0)%Z then js "-" else [])
      ++ decimal (Z.to_N (n / d))
      ++ (if (n mod d =? 0)%Z then []
          else js "." ++ fraction_digits 20 (n mod d) d)
  end.

(** [formData.get] yields [null] for an absent field, and [null as string]
    reaches [parseFloat] as the text of [String(null)]. *)
Definition string_of_field (f : option jsstring) : jsstring :=
  match f with
  | Some s => s
  | None => js "null"
  end.

(** ** Segments *)

Record Segment : Type := mkSegment {
  start : number;
  end_ : number;
  text : jsstring;
  score : number
}.

(** ** Regular-expression scanners *)

Definition obind (A B : Type) (o : option A) (f : A -> option B)
  : option B :=
  match o with
  | Some a => f a
  | None => None
  end.

Notation "x <- e ;; k" := (obind e (fun x => k))
  (at level 61, e at next level, right associativity).
Notation "' p <- e ;; k" := (obind e (fun p => k))
  (at level 61, p pattern, e at next level, right associativity).

(** [\d{n}]: exactly [n] digits, and the rest. *)
Fixpoint digits (n : nat) (s : jsstring) : option (jsstring * jsstring) :=
  match n, s with
  | O, _ => Some ([], s)
  | S n', c :: s' =>
      if isDigit c then '(d, r) <- digits n' s' ;; Some (c :: d, r)
      else None
  | S _, [] => None
  end.

(** [\d+], greedy.  What follows it in the pattern is a line feed, so
    only the longest run of digits can lead to a match. *)
Definition digits_plus (s : jsstring) : option (jsstring * jsstring) :=
  match span isDigit s with
  | ([], _) => None
  | (d, r) => Some (d, r)
  end.

(** [(\d{2}):(\d{2}):(\d{2}),(\d{3})] *)
Definition timecode (s : jsstring)
  : option (jsstring * jsstring * jsstring * jsstring * jsstring) :=
  '(h, r) <- digits 2 s ;;
  r <- strip_prefix (js ":") r ;;
  '(m, r) <- digits 2 r ;;
  r <- strip_prefix (js ":") r ;;
  '(sec, r) <- digits 2 r ;;
  r <- strip_prefix (js ",") r ;;
  '(ms, r) <- digits 3 r ;;
  Some (h, m, sec, ms, r).

(** The lookahead [(?=\n\n|\n*$)]: two line feeds come next, or nothing but
    line feeds up to the end of the input. *)
Definition block_end (s : jsstring) : bool :=
  match strip_prefix [LF; LF] s with
  | Some _ => true
  | None => forallb (N.eqb LF) s
  end.

(** [([\s\S]*?)(?=\n\n|\n*$)]: the shortest run of arbitrary code units
    after which the lookahead holds, and the rest.  The lookahead holds at
    the end of the input, so the search always succeeds. *)
Fixpoint lazy_text (s : jsstring) : jsstring * jsstring :=
  if block_end s then ([], s)
  else match s with
       | [] => ([], [])
       | c :: s' => let (t, r) := lazy_text s' in (c :: t, r)
       end.

(** The capture groups [match[1]] to [match[10]] of [srtPattern]. *)
Record SrtMatch : Type := mkSrtMatch {
  g1 : jsstring; g2 : jsstring; g3 : jsstring; g4 : jsstring;
  g5 : jsstring; g6 : jsstring; g7 : jsstring; g8 : jsstring;
  g9 : jsstring; g10 : jsstring
}.

(** One attempt of [srtPattern] at the head of [s]: the captures and the
    input left after the match. *)
Definition srt_here (s : jsstring) : option (SrtMatch * jsstring) :=
  '(i, r) <- digits_plus s ;;
  r <- strip_prefix [LF] r ;;
  '(sh, sm, ss, sms, r) <- timecode r ;;
  r <- strip_prefix (js " --> ") r ;;
  '(eh, em, es, ems, r) <- timecode r ;;
  r <- strip_prefix [LF] r ;;
  let (t, r) := lazy_text r in
  Some (mkSrtMatch i sh sm ss sms eh em es ems t, r).

(** The loop of [exec] (or [match]) with a global pattern that never matches
    the empty string: the leftmost match from the current position, then on
    from where it ended.  [skip] counts the code units of the last match
    that are still to be passed over. *)
Fixpoint exec_all (M : Type) (here : jsstring -> option (M * jsstring))
  (skip : nat) (s : jsstring) : list M :=
  match s with
  | [] => []
  | _ :: s' =>
      match skip with
      | S k => exec_all here k s'
      | O =>
          match here s with
          | Some (m, r) =>
              m :: exec_all here (List.length s - List.length r - 1) s'
          | None => exec_all here 0 s'
          end
      end
  end.

(** [/[^.!?]+[.!?]+/] at the head of [s].  A shorter first run would be
    followed by a code unit that is no terminator, so only the longest one
    can match; the second run is greedy and nothing follows it. *)
Definition sentence_here (s : jsstring) : option (jsstring * jsstring) :=
  match span (fun c => negb (isTerminator c)) s with
  | ([], _) => None
  | (a, r) =>
      match span isTerminator r with
      | ([], _) => None
      | (b, r') => Some (a ++ b, r')
      end
  end.

(** [timestampPattern] at the head of [s]: the bracketed time code
    [\[(\d{2}):(\d{2}):(\d{2})\]], then white space, then a capture of
    every code unit up to the first line terminator.  Both repetitions are
    greedy and nothing follows them. *)
Definition bracket_here (s : jsstring)
  : option (jsstring * jsstring * jsstring * jsstring) :=
  r <- strip_prefix (js "[") s ;;
  '(h, r) <- digits 2 r ;;
  r <- strip_prefix (js ":") r ;;
  '(m, r) <- digits 2 r ;;
  r <- strip_prefix (js ":") r ;;
  '(sec, r) <- digits 2 r ;;
  r <- strip_prefix (js "]") r ;;
  let r := dropWhile isWhiteSpace r in
  Some (h, m, sec, fst (span (fun c => negb (isLineTerminator c)) r)).

(** [line.match(timestampPattern)]: the leftmost position where the
    pattern matches. *)
Fixpoint bracket_match (line : jsstring)
  : option (jsstring * jsstring * jsstring * jsstring) :=
  match bracket_here line with
  | Some m => Some m
  | None =>
      match line with
      | [] => None
      | _ :: line' => bracket_match line'
      end
  end.

(** ** The code shared by the two routes *)

Definition is_empty (A : Type) (l : list A) : bool :=
  match l with
  | [] => true
  | _ :: _ => false
  end.

(** A string is truthy when it is not empty. *)
Definition truthy (s : jsstring) : bool := negb (is_empty s).

(** Body of the [while] loop over the matches of [srtPattern]. *)
Definition srt_segment (m : SrtMatch) : Segment :=
  let startHours := parseInt (g2 m) in
  let startMinutes := parseInt (g3 m) in
  let startSeconds := parseInt (g4 m) in
  let startMs := parseInt (g5 m) in
  let endHours := parseInt (g6 m) in
  let endMinutes := parseInt (g7 m) in
  let endSeconds := parseInt (g8 m) in
  let endMs := parseInt (g9 m) in
  let start :=
    nadd (nadd (nadd (nmul startHours (Fin 3600)) (nmul startMinutes (Fin 60)))
               startSeconds)
         (ndiv startMs (Fin 1000)) in
  let end_ :=
    nadd (nadd (nadd (nmul endHours (Fin 3600)) (nmul endMinutes (Fin 60)))
               endSeconds)
         (ndiv endMs (Fin 1000)) in
  let text := replace_newlines (trim (g10 m)) in
  mkSegment start end_ text (Fin 0).

(** The segments pushed by the subtitle-block loop. *)
Definition srt_segments (content : jsstring) : list Segment :=
  List.map srt_segment (exec_all srt_here 0 content).

(** [content.match(/[^.!?]+[.!?]+/g)]: [null] when there is no match. *)
Definition match_sentences (content : jsstring) : option (list jsstring) :=
  match exec_all sentence_here 0 content with
  | [] => None
  | l => Some l
  end.

(** [Math.max(3, Math.min(10, text.length / 10))] *)
Definition duration_of (text : jsstring) : number :=
  Math_max (Fin 3) (Math_min (Fin 10) (ndiv (length_of text) (Fin 10))).

(** The [forEach] over the sentences, threading [currentTime]. *)
Fixpoint layout (currentTime : number) (sentences : list jsstring)
  : list Segment :=
  match sentences with
  | [] => []
  | sentence :: rest =>
      let text := trim sentence in
      let duration := duration_of text in
      mkSegment currentTime (nadd currentTime duration) text (Fin 0)
      :: layout (nadd currentTime duration) rest
  end.

(** The plain-text block: sentences with estimated time stamps. *)
Definition plain_segments (content : jsstring) : list Segment :=
  let sentences :=
    match match_sentences content with
    | Some l => l
    | None => [content]
    end in
  layout (Fin 0) sentences.

(** [array.map((x, idx) => f x idx)] *)
Fixpoint mapi_from (A B : Type) (f : A -> nat -> B) (idx : nat) (l : list A)
  : list B :=
  match l with
  | [] => []
  | x :: l' => f x idx :: mapi_from f (S idx) l'
  end.

Definition mapi (A B : Type) (f : A -> nat -> B) (l : list A) : list B :=
  mapi_from f 0 l.

(** The command handed to ffmpeg, or [null] when nothing is kept. *)
Definition build_ffmpegCommand (videoUrl : jsstring)
  (matchingSegments : list Segment) : option jsstring :=
  let filterComplex :=
    join (js "; ")
      (mapi (fun seg idx =>
               js "[0:v]trim=start=" ++ toString (start seg)
               ++ js ":end=" ++ toString (end_ seg)
               ++ js ",setpts=PTS-STARTPTS[v" ++ toString (of_nat idx)
               ++ js "]; [0:a]atrim=start=" ++ toString (start seg)
               ++ js ":end=" ++ toString (end_ seg)
               ++ js ",asetpts=PTS-STARTPTS[a" ++ toString (of_nat idx)
               ++ js "]")
            matchingSegments) in
  let concatInputs :=
    join []
      (mapi (fun _ idx =>
               js "[v" ++ toString (of_nat idx) ++ js "][a"
               ++ toString (of_nat idx) ++ js "]")
            matchingSegments) in
  if 0 <? List.length matchingSegments then
    Some (js "ffmpeg -i " ++ [QUOTE] ++ videoUrl ++ [QUOTE]
          ++ js " -filter_complex " ++ [QUOTE] ++ filterComplex ++ js "; "
          ++ concatInputs ++ js "concat=n="
          ++ toString (of_nat (List.length matchingSegments))
          ++ js ":v=1:a=1[outv][outa]" ++ [QUOTE]
          ++ js " -map " ++ [QUOTE] ++ js "[outv]" ++ [QUOTE]
          ++ js " -map " ++ [QUOTE] ++ js "[outa]" ++ [QUOTE]
          ++ js " output.mp4")
  else None.

(** [segments.reduce((sum, seg) => sum + seg.score, 0)] *)
Definition totalScore_of (segments : list Segment) : number :=
  fold_left (fun sum seg => nadd sum (score seg)) segments (Fin 0).

(** A response: an error message with its status, or the success body. *)
Inductive Response (B : Type) : Type :=
| Failure (status : nat) (error : jsstring)
| Success (body : B).

Arguments Failure {B} status error.
Arguments Success {B} body.

Section Scoring.

(** [text => sentiment.analyze(text).score] *)
Variable analyze : jsstring -> number.

(** The [map] of [analyzeSentiment]: a copy of the segment with its
    score set; the segment passed in is left as it was. *)
Definition rescore (segment : Segment) : Segment :=
  mkSegment (start segment) (end_ segment) (text segment)
            (analyze (text segment)).

Definition analyzeSentiment (segments : list Segment) (threshold : number)
  : list Segment :=
  let analyzedSegments := List.map rescore segments in
  List.filter (fun segment => nge (score segment) threshold)
              analyzedSegments.

End Scoring.

(** ** The upload route, [src/app/api/analyze/route.ts] *)

Module Upload.

(** The segments pushed by the loop over the bracketed lines. *)
Definition bracket_segments (content : jsstring) : list Segment :=
  let lines :=
    List.filter (fun line => truthy (trim line)) (split_lines content) in
  List.concat
    (mapi
       (fun line i =>
          match bracket_match line with
          | Some (h, m, s, t) =>
              let hours := parseInt h in
              let minutes := parseInt m in
              let seconds := parseInt s in
              let text := trim t in
              let start :=
                nadd (nadd (nmul hours (Fin 3600)) (nmul minutes (Fin 60)))
                     seconds in
              let end_ :=
                if i <? List.length lines - 1 then nadd start (Fin 5)
                else nadd start (Fin 5) in
              [mkSegment start end_ text (Fin 0)]
          | None => []
          end)
       lines).

Definition parseTranscript (content : jsstring) : list Segment :=
  let segments := srt_segments content in
  let segments :=
    if List.length segments =? 0 then bracket_segments content
    else segments in
  let segments :=
    if List.length segments =? 0 then plain_segments content
    else segments in
  segments.

Record Statistics : Type := mkStatistics {
  total : nat;
  matching : nat;
  stat_averageSentiment : number
}.

Record N8nData : Type := mkN8nData {
  n8n_segments : list Segment;
  n8n_videoUrl : jsstring;
  n8n_threshold : number;
  statistics : Statistics
}.

Record Body : Type := mkBody {
  success : bool;
  videoUrl : jsstring;
  threshold : number;
  totalSegments : nat;
  matchingSegments : nat;
  averageSentiment : number;
  segments : list Segment;
  ffmpegCommand : option jsstring;
  n8nData : N8nData
}.

(** The fields of the multipart form: the text of the uploaded file and
    the two text fields, each absent or present. *)
Record Form : Type := mkForm {
  form_transcript : option jsstring;
  form_videoUrl : option jsstring;
  form_threshold : option jsstring
}.

Section Route.

Variable analyze : jsstring -> number.

(** The handler, from the form already read to the object handed to
    [NextResponse.json].  Nothing in the body throws on the inputs a [Form]
    can hold, so the [catch] block has no counterpart. *)
Definition POST (request : Form) : Response Body :=
  let threshold := parseFloat (string_of_field (form_threshold request)) in
  match form_transcript request, form_videoUrl request with
  | Some transcriptContent, Some videoUrl =>
      if negb (truthy videoUrl) then
        Failure 400 (js "Missing required fields")
      else
        let segments := parseTranscript transcriptContent in
        if List.length segments =? 0 then
          Failure 400
            (js "Could not parse transcript. Please use SRT format or plain text with timestamps.")
        else
          let matchingSegments :=
            analyzeSentiment analyze segments threshold in
          let totalScore := totalScore_of segments in
          let averageSentiment :=
            ndiv totalScore (of_nat (List.length segments)) in
          let ffmpegCommand :=
            build_ffmpegCommand videoUrl matchingSegments in
          Success
            (mkBody true videoUrl threshold
               (List.length segments) (List.length matchingSegments)
               averageSentiment matchingSegments ffmpegCommand
               (mkN8nData matchingSegments videoUrl threshold
                  (mkStatistics (List.length segments)
                     (List.length matchingSegments) averageSentiment)))
  | _, _ => Failure 400 (js "Missing required fields")
  end.

End Route.

End Upload.

(** ** The webhook route *)

Module Webhook.

Definition parseTranscript (content : jsstring) : list Segment :=
  let segments := srt_segments content in
  let segments :=
    if List.length segments =? 0 then plain_segments content
    else segments in
  segments.

Record CutPoint : Type := mkCutPoint {
  cut_start : number;
  cut_end : number;
  cut_duration : number
}.

Record Statistics : Type := mkStatistics {
  total : nat;
  matching : nat;
  stat_averageSentiment : number;
  percentageKept : number
}.

Record Body : Type := mkBody {
  success : bool;
  videoUrl : jsstring;
  threshold : number;
  totalSegments : nat;
  matchingSegments : nat;
  averageSentiment : number;
  segments : list Segment;
  ffmpegCommand : option jsstring;
  cutPoints : list CutPoint;
  statistics : Statistics
}.

(** The four properties read from the JSON body, each absent or present
    with a value of the type the route expects. *)
Record Json : Type := mkJson {
  json_transcript : option jsstring;
  json_transcriptContent : option jsstring;
  json_videoUrl : option jsstring;
  json_threshold : option number
}.

(** [!x] for an optional string: absent or empty. *)
Definition falsy (x : option jsstring) : bool :=
  match x with
  | Some s => negb (truthy s)
  | None => true
  end.

Section Route.

Variable analyze : jsstring -> number.

(** The handler, from the parsed JSON body to the object handed to
    [NextResponse.json].  An absent [threshold] takes the default of the
    destructuring pattern; nothing in the body throws on the inputs a
    [Json] can hold, so the [catch] block has no counterpart. *)
Definition POST (body : Json) : Response Body :=
  let transcript := json_transcript body in
  let transcriptContent := json_transcriptContent body in
  let videoUrl := json_videoUrl body in
  let threshold :=
    match json_threshold body with
    | Some t => t
    | None => Fin 0
    end in
  match videoUrl with
  | None => Failure 400 (js "videoUrl is required")
  | Some videoUrl =>
      if negb (truthy videoUrl) then
        Failure 400 (js "videoUrl is required")
      else
        let content :=
          if falsy transcriptContent then transcript
          else transcriptContent in
        match content with
        | None =>
            Failure 400 (js "transcript or transcriptContent is required")
        | Some content =>
            if negb (truthy content) then
              Failure 400
                (js "transcript or transcriptContent is required")
            else
              let segments := parseTranscript content in
              if List.length segments =? 0 then
                Failure 400 (js "Could not parse transcript")
              else
                let matchingSegments :=
                  analyzeSentiment analyze segments threshold in
                let totalScore := totalScore_of segments in
                let averageSentiment :=
                  ndiv totalScore (of_nat (List.length segments)) in
                let ffmpegCommand :=
                  build_ffmpegCommand videoUrl matchingSegments in
                Success
                  (mkBody true videoUrl threshold
                     (List.length segments)
                     (List.length matchingSegments)
                     averageSentiment matchingSegments ffmpegCommand
                     (List.map
                        (fun seg =>
                           mkCutPoint (start seg) (end_ seg)
                             (nsub (end_ seg) (start seg)))
                        matchingSegments)
                     (mkStatistics (List.length segments)
                        (List.length matchingSegments) averageSentiment
                        (nmul
                           (ndiv (of_nat (List.length matchingSegments))
                                 (of_nat (List.length segments)))
                           (Fin 100))))
        end
  end.

End Route.

End Webhook.

(** ** Vocabulary of the statements *)

(** [kept] is the sub-sequence of [l] made of the elements that satisfy
    [P], in the order of [l]. *)
Inductive Selects (A : Type) (P : A -> Prop) : list A -> list A -> Prop :=
| Selects_nil : Selects P [] []
| Selects_keep x l kept :
    P x -> Selects P l kept -> Selects P (x :: l) (x :: kept)
| Selects_drop x l kept :
    ~ P x -> Selects P l kept -> Selects P (x :: l) kept.

(** Two decimal digits of a field below 100, three of a field below 1000. *)
Definition digit_char (d : nat) : N := (48 + N.of_nat d)%N.

Definition pad2 (n : nat) : jsstring :=
  [digit_char (n / 10); digit_char (n mod 10)].

Definition pad3 (n : nat) : jsstring :=
  [digit_char (n / 100); digit_char (n / 10 mod 10); digit_char (n mod 10)].



(** A bracketed line [[HH:MM:SS] body]. *)
Definition bracket_line (h m s : nat) (body : jsstring) : jsstring :=
  js "[" ++ pad2 h ++ js ":" ++ pad2 m ++ js ":" ++ pad2 s ++ js "] " ++ body.

(** [h*3600 + m*60 + s + ms/1000] *)
Definition seconds_of (h m s ms : nat) : Q :=
  inject_Z (Z.of_nat h) * 3600 + inject_Z (Z.of_nat m) * 60
  + inject_Z (Z.of_nat s) + inject_Z (Z.of_nat ms) / 1000.

(** A stand-in for the scorer, used where a statement needs a concrete one:
    the sum of the values of the words of a short word list, the text cut
    at every code unit that is no letter and read in lower case. *)
Definition isLetter (c : N) : bool :=
  (((65 <=? c) && (c <=? 90)) || ((97 <=? c) && (c <=? 122)))%N.

Definition toLower (c : N) : N :=
  if ((65 <=? c) && (c <=? 90))%N then (c + 32)%N else c.

Fixpoint words_of (current : jsstring) (s : jsstring) : list jsstring :=
  match s with
  | [] => [rev current]
  | c :: s' =>
      if isLetter c then words_of (toLower c :: current) s'
      else rev current :: words_of [] s'
  end.

Definition word_list : list (jsstring * Z) :=
  [(js "great", 3); (js "good", 3); (js "love", 3); (js "happy", 3);
   (js "terrible", -3); (js "bad", -3); (js "hate", -3);
   (js "disaster", -2)]%Z.

Definition word_value (w : jsstring) : Z :=
  match find (fun e => if list_eq_dec N.eq_dec (fst e) w then true else false)
             word_list with
  | Some e => snd e
  | None => 0%Z
  end.

Definition demo_analyze (text : jsstring) : number :=
  of_Z (fold_left (fun acc w => (acc + word_value w)%Z) (words_of [] text) 0%Z).

(** Equality test on numbers, term by term. *)
Definition number_eqb (a b : number) : bool :=
  match a, b with
  | Fin x, Fin y => (Qnum x =? Qnum y)%Z && (Qden x =? Qden y)%positive
  | PInf, PInf | NInf, NInf | NaN, NaN => true
  | _, _ => false
  end.

(** The error messages of the zero-segment branch of each route. *)
Definition upload_unparsable : jsstring :=
  js "Could not parse transcript. Please use SRT format or plain text with timestamps.".

Definition webhook_unparsable : jsstring := js "Could not parse transcript".

(** The average the specification describes: the scores the scorer assigns
    to all the segments, summed and divided by their number. *)
Definition spec_averageSentiment (analyze : jsstring -> number)
  (segments : list Segment) : number :=
  ndiv (totalScore_of (List.map (rescore analyze) segments))
       (of_nat (List.length segments)).

(** A segment as the parser leaves it. *)
Definition unscored (seg : Segment) : Prop := score seg = Fin 0.


(** A sentence chunk: code units that are no terminators, at least one,
    then terminators, at least one. *)
Definition sentence_chunk (chunk : jsstring) : Prop :=
  exists a b,
    chunk = a ++ b /\ a <> [] /\ b <> []
    /\ forallb (fun c => negb (isTerminator c)) a = true
    /\ forallb isTerminator b = true.

(** The duration the specification gives a chunk of [len] code units:
    [max(3, min(10, len/10))]. *)
Definition spec_duration (len : nat) : Q :=
  Qmax 3 (Qmin 10 (inject_Z (Z.of_nat len) / 10)).

(** No terminator at the head of [s]. *)
Definition head_ok (s : jsstring) : Prop :=
  match s with
  | [] => True
  | c :: _ => isTerminator c = false
  end.

Definition nonTerminator (c : N) : bool := negb (isTerminator c).

(** The lines the bracketed loop runs over: those that are not blank. *)
Definition nonblank_lines (content : jsstring) : list jsstring :=
  List.filter (fun line => truthy (trim line)) (split_lines content).

(** What the bracketed loop pushes for one line. *)
Definition bracket_line_segment (line : jsstring) : list Segment :=
  match bracket_match line with
  | Some (h, m, s, t) =>
      let start :=
        nadd (nadd (nmul (parseInt h) (Fin 3600)) (nmul (parseInt m) (Fin 60)))
             (parseInt s) in
      [mkSegment start (nadd start (Fin 5)) (trim t) (Fin 0)]
  | None => []
  end.

Definition notLF (c : N) : bool := negb (N.eqb c LF).

(** The text captured after a bracketed time code: leading white space
    skipped, then everything up to the first line terminator. *)
Definition bracket_text (body : jsstring) : jsstring :=
  fst (span (fun c => negb (isLineTerminator c)) (dropWhile isWhiteSpace body)).

(** Two bracketed lines two seconds apart, and two ten seconds apart. *)
Definition overlapping_lines : jsstring :=
  js "[00:00:00] a" ++ [LF] ++ js "[00:00:02] b".

Definition gapped_lines : jsstring :=
  js "[00:00:00] a" ++ [LF] ++ js "[00:00:10] b".

(** ** The page, [src/app/page.tsx] *)

Module Page.

(** The three pieces of state [handleSubmit] reads: the text of the chosen
    file if there is one, the URL typed, and the value of the range
    input. *)
Record State : Type := mkState {
  transcriptFile : option jsstring;
  videoUrl : jsstring;
  sentimentThreshold : number
}.

(** The values of the range input: [min="-5"], [max="5"], [step="0.5"],
    that is [k/2] for [k] from -10 to 10; the initial state 0 is one of
    them. *)
Definition slider_value (k : Z) : number := fin (inject_Z k / 2).

(** The [FormData] built by [handleSubmit]: the file only when one is
    chosen, the other two fields always. *)
Definition formData (st : State) : Upload.Form :=
  Upload.mkForm (transcriptFile st) (Some (videoUrl st))
    (Some (toString (sentimentThreshold st))).

(** What [handleSubmit] leaves in [result] and [error]. *)
Record Outcome : Type := mkOutcome {
  result : option Upload.Body;
  error : jsstring
}.

(** [handleSubmit], with the request to [/api/analyze] answered by the
    upload route: a response that is not [ok] throws its [error] (or the
    stock message when that is empty), which the [catch] block stores.
    Failures of the network are not represented. *)
Definition handleSubmit (analyze : jsstring -> number) (st : State)
  : Outcome :=
  match Upload.POST analyze (formData st) with
  | Success data => mkOutcome (Some data) []
  | Failure _ err =>
      mkOutcome None (if truthy err then err else js "Processing failed")
  end.

End Page.

(** ** More vocabulary *)

(** [!x] for an optional string, as in [Webhook.falsy]. *)
Definition present (x : option jsstring) : bool :=
  match x with
  | Some s => truthy s
  | None => false
  end.

(** A time that is a number, and not a negative one. *)
Definition clock_time (x : number) : Prop := exists q, x = Fin q /\ 0 <= q.

(** No white space at either end. *)
Definition no_outer_space (s : jsstring) : Prop :=
  match s with [] => True | c :: _ => isWhiteSpace c = false end
  /\ match rev s with [] => True | c :: _ => isWhiteSpace c = false end.







(** A scorer whose every score is a finite number. *)
Definition finite_scorer (analyze : jsstring -> number) : Prop :=
  forall t, exists q, analyze t = Fin q.


(** A segment that starts at a time that is not negative and lasts
    between 3 and 10 seconds. *)
Definition plain_timing (seg : Segment) : Prop :=
  exists a b,
    start seg = Fin a /\ end_ seg = Fin b
    /\ 0 <= a /\ a + 3 <= b /\ b <= a + 10.




(** No line feed comes directly after a digit, as in a file whose lines
    end in a carriage return and a line feed. *)
Fixpoint no_digit_LF (s : jsstring) : bool :=
  match s with
  | c :: s' =>
      match s' with
      | d :: _ => negb (isDigit c && N.eqb d LF)
      | [] => true
      end
      && no_digit_LF s'
  | [] => true
  end.

(** A one-cue subtitle file with Windows line endings. *)
Definition crlf_file : jsstring :=
  js "1" ++ [13; 10]%N ++ js "00:00:01,000 --> 00:00:03,000" ++ [13; 10]%N
  ++ js "Great news today!" ++ [13; 10]%N.

(** * Properties *)

Unset Implicit Arguments.

(** ** Numbers *)

Lemma number_eqb_eq a b : number_eqb a b = true -> a = b.
Proof.
  destruct a as [[xn xd]| | |], b as [[yn yd]| | |]; simpl;
    try discriminate; try reflexivity.
  intros H. apply andb_prop in H. destruct H as [Hn Hd].
  apply Z.eqb_eq in Hn. apply Pos.eqb_eq in Hd. now subst.
Qed.

Lemma fin_proper x y : x == y -> fin x = fin y.
Proof. intros H. unfold fin. f_equal. now apply Qred_complete. Qed.

Lemma nge_Fin_iff (s t : Q) : nge (Fin s) (Fin t) = true <-> t <= s.
Proof. simpl. apply Qle_bool_iff. Qed.

Lemma nlt_Fin_iff (a b : Q) : nlt (Fin a) (Fin b) = true <-> a < b.
Proof.
  simpl. rewrite negb_true_iff. split.
  - intros H. apply Qnot_le_lt. intros Hle.
    apply Qle_bool_iff in Hle. congruence.
  - intros H. destruct (Qle_bool b a) eqn:E; [|reflexivity].
    apply Qle_bool_iff in E. exfalso. now apply (Qlt_not_le a b).
Qed.

Lemma nadd_Fin (x y : Q) : nadd (Fin x) (Fin y) = fin (x + y).
Proof. reflexivity. Qed.

Lemma nmul_Fin (x y : Q) : nmul (Fin x) (Fin y) = fin (x * y).
Proof. reflexivity. Qed.

(** Lowering the threshold keeps what was kept. *)
Lemma nge_lower (s t1 t2 : number) :
  nlt t1 t2 = true -> nge s t2 = true -> nge s t1 = true.
Proof.
  destruct s as [s| | |], t1 as [a| | |], t2 as [b| | |];
    try discriminate; try reflexivity.
  intros Hlt Hge. apply nlt_Fin_iff in Hlt.
  apply nge_Fin_iff in Hge. apply nge_Fin_iff.
  apply Qlt_le_weak. now apply Qlt_le_trans with b.
Qed.

(** ** Lists and scanners *)

Lemma match_sentences_nonempty content l :
  match_sentences content = Some l -> l <> [].
Proof.
  unfold match_sentences.
  destruct (exec_all sentence_here 0 content) eqn:E; [discriminate|].
  intros H. injection H as <-. discriminate.
Qed.

Lemma plain_segments_nonempty content : plain_segments content <> [].
Proof.
  unfold plain_segments.
  destruct (match_sentences content) as [l|] eqn:E.
  - apply match_sentences_nonempty in E.
    destruct l; [congruence | discriminate].
  - discriminate.
Qed.

Lemma upload_parse_nonempty content : Upload.parseTranscript content <> [].
Proof.
  unfold Upload.parseTranscript.
  destruct (List.length (srt_segments content) =? 0) eqn:E1.
  - destruct (List.length (Upload.bracket_segments content) =? 0) eqn:E2.
    + apply plain_segments_nonempty.
    + intros H. rewrite H in E2. discriminate.
  - rewrite E1. intros H. rewrite H in E1. discriminate.
Qed.

Lemma webhook_parse_nonempty content : Webhook.parseTranscript content <> [].
Proof.
  unfold Webhook.parseTranscript.
  destruct (List.length (srt_segments content) =? 0) eqn:E1.
  - apply plain_segments_nonempty.
  - intros H. rewrite H in E1. discriminate.
Qed.

Lemma upload_parse_length content :
  (List.length (Upload.parseTranscript content) =? 0) = false.
Proof.
  destruct (Upload.parseTranscript content) eqn:E; [|reflexivity].
  now apply upload_parse_nonempty in E.
Qed.

Lemma webhook_parse_length content :
  (List.length (Webhook.parseTranscript content) =? 0) = false.
Proof.
  destruct (Webhook.parseTranscript content) eqn:E; [|reflexivity].
  now apply webhook_parse_nonempty in E.
Qed.

(** ** The segmenter always produces a segment *)

Lemma upload_never_unparsable analyze request status :
  Upload.POST analyze request <> Failure status upload_unparsable.
Proof.
  unfold Upload.POST.
  destruct (Upload.form_transcript request) as [content|];
    destruct (Upload.form_videoUrl request) as [url|];
    try (intros H; injection H as _ H; vm_compute in H; discriminate).
  destruct (truthy url); simpl.
  - rewrite upload_parse_length. discriminate.
  - intros H; injection H as _ H; vm_compute in H; discriminate.
Qed.

Lemma webhook_never_unparsable analyze body status :
  Webhook.POST analyze body <> Failure status webhook_unparsable.
Proof.
  unfold Webhook.POST.
  destruct (Webhook.json_videoUrl body) as [url|];
    [|intros H; injection H as _ H; vm_compute in H; discriminate].
  destruct (truthy url); simpl;
    [|intros H; injection H as _ H; vm_compute in H; discriminate].
  destruct (if Webhook.falsy (Webhook.json_transcriptContent body)
            then Webhook.json_transcript body
            else Webhook.json_transcriptContent body) as [content|];
    [|intros H; injection H as _ H; vm_compute in H; discriminate].
  destruct (truthy content); simpl;
    [|intros H; injection H as _ H; vm_compute in H; discriminate].
  rewrite webhook_parse_length. discriminate.
Qed.

(** C3.  Whatever the input, both versions of [parseTranscript] return at
    least one segment: when the sentence pattern finds no match the whole
    input becomes the only chunk; the empty input yields the single segment
    with empty text running from 0 to 3; and no request makes either route
    answer with its could-not-parse error. *)
Theorem parseTranscript_never_empty (content : jsstring) :
  Upload.parseTranscript content <> []
  /\ Webhook.parseTranscript content <> []
  /\ (match_sentences content = None ->
      plain_segments content = layout (Fin 0) [content])
  /\ Upload.parseTranscript [] = [mkSegment (Fin 0) (Fin 3) [] (Fin 0)]
  /\ Webhook.parseTranscript [] = [mkSegment (Fin 0) (Fin 3) [] (Fin 0)]
  /\ (forall analyze request status,
        Upload.POST analyze request <> Failure status upload_unparsable)
  /\ (forall analyze body status,
        Webhook.POST analyze body <> Failure status webhook_unparsable).
Proof.
  split; [apply upload_parse_nonempty|].
  split; [apply webhook_parse_nonempty|].
  split; [intros H; unfold plain_segments; now rewrite H|].
  split; [reflexivity|].
  split; [reflexivity|].
  split; [apply upload_never_unparsable | apply webhook_never_unparsable].
Qed.

Lemma parseTranscript_never_empty_witness :
  match_sentences (js "no terminator here") = None
  /\ plain_segments (js "no terminator here")
     = layout (Fin 0) [js "no terminator here"]
  /\ Upload.parseTranscript (js "no terminator here") <> [].
Proof.
  assert (Hnone : match_sentences (js "no terminator here") = None)
    by (vm_compute; reflexivity).
  destruct (parseTranscript_never_empty (js "no terminator here"))
    as [Hup [_ [Hplain _]]].
  split; [exact Hnone|]. split; [exact (Hplain Hnone) | exact Hup].
Defined.

(** ** What a well-formed request is answered with *)

Lemma upload_POST_valid analyze content url thr :
  truthy url = true ->
  Upload.POST analyze (Upload.mkForm (Some content) (Some url) thr) =
  let threshold := parseFloat (string_of_field thr) in
  let segments := Upload.parseTranscript content in
  let kept := analyzeSentiment analyze segments threshold in
  let average :=
    ndiv (totalScore_of segments) (of_nat (List.length segments)) in
  Success
    (Upload.mkBody true url threshold (List.length segments)
       (List.length kept) average kept (build_ffmpegCommand url kept)
       (Upload.mkN8nData kept url threshold
          (Upload.mkStatistics (List.length segments) (List.length kept)
             average))).
Proof.
  intros Hurl. unfold Upload.POST. simpl. rewrite Hurl. simpl.
  now rewrite upload_parse_length.
Qed.

Lemma webhook_POST_valid analyze transcript transcriptContent content url thr :
  truthy url = true ->
  (if Webhook.falsy transcriptContent then transcript else transcriptContent)
  = Some content ->
  truthy content = true ->
  Webhook.POST analyze
    (Webhook.mkJson transcript transcriptContent (Some url) thr) =
  let threshold := match thr with Some t => t | None => Fin 0 end in
  let segments := Webhook.parseTranscript content in
  let kept := analyzeSentiment analyze segments threshold in
  let average :=
    ndiv (totalScore_of segments) (of_nat (List.length segments)) in
  Success
    (Webhook.mkBody true url threshold (List.length segments)
       (List.length kept) average kept (build_ffmpegCommand url kept)
       (List.map
          (fun seg =>
             Webhook.mkCutPoint (start seg) (end_ seg)
               (nsub (end_ seg) (start seg)))
          kept)
       (Webhook.mkStatistics (List.length segments) (List.length kept)
          average
          (nmul (ndiv (of_nat (List.length kept))
                      (of_nat (List.length segments)))
                (Fin 100)))).
Proof.
  intros Hurl Hsel Hcontent. unfold Webhook.POST. simpl. rewrite Hurl. simpl.
  rewrite Hsel, Hcontent. simpl.
  now rewrite webhook_parse_length.
Qed.

(** ** The average is taken over the unscored segments *)

Lemma layout_unscored t l : Forall unscored (layout t l).
Proof.
  revert t. induction l as [|x l IH]; intros t; simpl; constructor.
  - reflexivity.
  - apply IH.
Qed.

Lemma srt_unscored content : Forall unscored (srt_segments content).
Proof.
  apply Forall_forall. intros seg Hin. unfold srt_segments in Hin.
  apply in_map_iff in Hin. destruct Hin as [m [<- _]]. reflexivity.
Qed.

Lemma in_mapi_from (A B : Type) (f : A -> nat -> B) l i y :
  In y (mapi_from f i l) -> exists x j, In x l /\ y = f x j.
Proof.
  revert i. induction l as [|x l IH]; intros i; simpl; [tauto|].
  intros [<-|Hin].
  - exists x, i. auto.
  - destruct (IH _ Hin) as [x' [j [Hx ->]]]. exists x', j. auto.
Qed.

Lemma bracket_unscored content :
  Forall unscored (Upload.bracket_segments content).
Proof.
  apply Forall_forall. intros seg Hin. unfold Upload.bracket_segments in Hin.
  apply in_concat in Hin. destruct Hin as [l [Hl Hseg]].
  apply in_mapi_from in Hl. destruct Hl as [line [i [_ ->]]].
  destruct (bracket_match line) as [[[[h m] s] t]|]; simpl in Hseg.
  - destruct Hseg as [<-|[]]. reflexivity.
  - contradiction.
Qed.

Lemma plain_unscored content : Forall unscored (plain_segments content).
Proof. unfold plain_segments. apply layout_unscored. Qed.

Lemma upload_parse_unscored content :
  Forall unscored (Upload.parseTranscript content).
Proof.
  unfold Upload.parseTranscript.
  destruct (List.length (srt_segments content) =? 0) eqn:E1.
  - destruct (List.length (Upload.bracket_segments content) =? 0).
    + apply plain_unscored.
    + apply bracket_unscored.
  - rewrite E1. apply srt_unscored.
Qed.

Lemma webhook_parse_unscored content :
  Forall unscored (Webhook.parseTranscript content).
Proof.
  unfold Webhook.parseTranscript.
  destruct (List.length (srt_segments content) =? 0).
  - apply plain_unscored.
  - apply srt_unscored.
Qed.

Lemma totalScore_unscored segments :
  Forall unscored segments -> totalScore_of segments = Fin 0.
Proof.
  unfold totalScore_of. induction 1 as [|seg l Hseg _ IH]; simpl.
  - reflexivity.
  - rewrite Hseg. exact IH.
Qed.

Lemma zero_over_length (A : Type) (l : list A) :
  l <> [] -> ndiv (Fin 0) (of_nat (List.length l)) = Fin 0.
Proof.
  destruct l as [|x l]; [congruence|]. intros _.
  unfold of_nat, ndiv, Qsign.
  replace (inject_Z (Z.of_nat (List.length (x :: l))) ?= 0) with Gt.
  - change (Fin 0) with (fin 0). apply fin_proper.
    unfold Qdiv. apply Qmult_0_l.
  - symmetry. apply Qgt_alt. unfold Qlt. simpl. lia.
Qed.

(** The [averageSentiment] of every successful answer is zero, whatever the
    scorer says about the segments. *)
Lemma upload_average_zero analyze request body :
  Upload.POST analyze request = Success body ->
  Upload.averageSentiment body = Fin 0.
Proof.
  unfold Upload.POST.
  destruct (Upload.form_transcript request) as [content|];
    destruct (Upload.form_videoUrl request) as [url|]; try discriminate.
  destruct (truthy url); simpl; [|discriminate].
  rewrite upload_parse_length. intros H. injection H as <-. simpl.
  rewrite totalScore_unscored by apply upload_parse_unscored.
  apply zero_over_length, upload_parse_nonempty.
Qed.

Lemma webhook_average_zero analyze request body :
  Webhook.POST analyze request = Success body ->
  Webhook.averageSentiment body = Fin 0.
Proof.
  unfold Webhook.POST.
  destruct (Webhook.json_videoUrl request) as [url|]; [|discriminate].
  destruct (truthy url); simpl; [|discriminate].
  destruct (if Webhook.falsy (Webhook.json_transcriptContent request)
            then Webhook.json_transcript request
            else Webhook.json_transcriptContent request) as [content|];
    [|discriminate].
  destruct (truthy content); simpl; [|discriminate].
  rewrite webhook_parse_length. intros H. injection H as <-. simpl.
  rewrite totalScore_unscored by apply webhook_parse_unscored.
  apply zero_over_length, webhook_parse_nonempty.
Qed.

(** Two requests that differ in the threshold only are answered with the
    same [averageSentiment]. *)
Lemma upload_average_same analyze content url thr1 thr2 body1 body2 :
  Upload.POST analyze (Upload.mkForm content url thr1) = Success body1 ->
  Upload.POST analyze (Upload.mkForm content url thr2) = Success body2 ->
  Upload.averageSentiment body1 = Upload.averageSentiment body2.
Proof.
  intros H1 H2.
  rewrite (upload_average_zero _ _ _ H1).
  now rewrite (upload_average_zero _ _ _ H2).
Qed.

Lemma webhook_average_same analyze tr tc url thr1 thr2 body1 body2 :
  Webhook.POST analyze (Webhook.mkJson tr tc url thr1) = Success body1 ->
  Webhook.POST analyze (Webhook.mkJson tr tc url thr2) = Success body2 ->
  Webhook.averageSentiment body1 = Webhook.averageSentiment body2.
Proof.
  intros H1 H2.
  rewrite (webhook_average_zero _ _ _ H1).
  now rewrite (webhook_average_zero _ _ _ H2).
Qed.

(** C1.  On the transcript [Great news today!] the scorer gives the only
    segment the score 3, so the average over the scored segments is 3; both
    routes answer with [averageSentiment] 0, because the sum is taken over
    the segments as parsed, whose score is still 0. *)
Theorem averageSentiment_reads_unscored_segments :
  let content := js "Great news today!" in
  let url := js "v.mp4" in
  spec_averageSentiment demo_analyze (Upload.parseTranscript content) = Fin 3
  /\ spec_averageSentiment demo_analyze (Webhook.parseTranscript content)
     = Fin 3
  /\ (exists body,
        Upload.POST demo_analyze
          (Upload.mkForm (Some content) (Some url) (Some (js "0")))
        = Success body
        /\ Upload.averageSentiment body = Fin 0
        /\ List.map score (Upload.segments body) = [Fin 3])
  /\ (exists body,
        Webhook.POST demo_analyze
          (Webhook.mkJson None (Some content) (Some url) (Some (Fin 0)))
        = Success body
        /\ Webhook.averageSentiment body = Fin 0
        /\ List.map score (Webhook.segments body) = [Fin 3]).
Proof.
  cbv zeta. split; [vm_compute; reflexivity|].
  split; [vm_compute; reflexivity|].
  split; eexists; (split; [vm_compute; reflexivity|]);
    split; vm_compute; reflexivity.
Qed.

(** ** Empty transcripts *)

(** C2.  An upload whose transcript file is empty is answered with a success
    body counting one segment, not with the could-not-parse error; the
    webhook turns an empty transcript away as a missing field, before any
    parsing. *)
Theorem empty_transcript_is_accepted (analyze : jsstring -> number) :
  (exists body,
     Upload.POST analyze
       (Upload.mkForm (Some []) (Some (js "v.mp4")) (Some (js "0")))
     = Success body
     /\ Upload.success body = true
     /\ Upload.totalSegments body = 1%nat)
  /\ Upload.parseTranscript [] = [mkSegment (Fin 0) (Fin 3) [] (Fin 0)]
  /\ Webhook.POST analyze
       (Webhook.mkJson None (Some []) (Some (js "v.mp4")) (Some (Fin 0)))
     = Failure 400 (js "transcript or transcriptContent is required").
Proof.
  split.
  - rewrite upload_POST_valid by reflexivity. cbv zeta.
    eexists. split; [reflexivity|]. split; reflexivity.
  - split; reflexivity.
Qed.

(** ** The default threshold *)

Lemma webhook_default_threshold analyze transcript transcriptContent url :
  Webhook.POST analyze
    (Webhook.mkJson transcript transcriptContent url None)
  = Webhook.POST analyze
      (Webhook.mkJson transcript transcriptContent url (Some (Fin 0))).
Proof. reflexivity. Qed.

Lemma upload_threshold_echo analyze request body :
  Upload.POST analyze request = Success body ->
  Upload.threshold body
  = parseFloat (string_of_field (Upload.form_threshold request)).
Proof.
  unfold Upload.POST.
  destruct (Upload.form_transcript request) as [content|];
    destruct (Upload.form_videoUrl request) as [url|]; try discriminate.
  destruct (truthy url); simpl; [|discriminate].
  rewrite upload_parse_length. intros H. now injection H as <-.
Qed.

(** C4.  The webhook reads an absent threshold as 0.  The upload route does
    not: an absent field is parsed to NaN, which no score reaches, so the
    request without the field and the same request with threshold 0 are
    answered differently, and with the stand-in scorer the first keeps
    nothing where the second keeps the only segment. *)
Theorem upload_threshold_has_no_default :
  let content := js "Great news today!" in
  let url := js "v.mp4" in
  (forall analyze transcript transcriptContent videoUrl,
     Webhook.POST analyze
       (Webhook.mkJson transcript transcriptContent videoUrl None)
     = Webhook.POST analyze
         (Webhook.mkJson transcript transcriptContent videoUrl
            (Some (Fin 0))))
  /\ (forall analyze,
        Upload.POST analyze (Upload.mkForm (Some content) (Some url) None)
        <> Upload.POST analyze
             (Upload.mkForm (Some content) (Some url) (Some (js "0"))))
  /\ (exists omitted given,
        Upload.POST demo_analyze
          (Upload.mkForm (Some content) (Some url) None) = Success omitted
        /\ Upload.POST demo_analyze
             (Upload.mkForm (Some content) (Some url) (Some (js "0")))
           = Success given
        /\ Upload.threshold omitted = NaN
        /\ Upload.matchingSegments omitted = 0%nat
        /\ Upload.ffmpegCommand omitted = None
        /\ Upload.threshold given = Fin 0
        /\ Upload.matchingSegments given = 1%nat).
Proof.
  cbv zeta. split; [intros; apply webhook_default_threshold|]. split.
  - intros analyze Heq.
    rewrite (upload_POST_valid analyze _ _ (Some (js "0"))) in Heq
      by reflexivity.
    cbv zeta in Heq.
    apply upload_threshold_echo in Heq.
    change (parseFloat (js "0") = parseFloat (js "null")) in Heq.
    vm_compute in Heq. discriminate.
  - do 2 eexists. split; [vm_compute; reflexivity|].
    split; [vm_compute; reflexivity|].
    do 4 (split; [reflexivity|]). reflexivity.
Qed.

(** ** The filter *)

Lemma filter_Selects (A : Type) (p : A -> bool) (l : list A) :
  Selects (fun x => p x = true) l (List.filter p l).
Proof.
  induction l as [|x l IH]; simpl.
  - constructor.
  - destruct (p x) eqn:E.
    + now constructor.
    + constructor; [congruence | exact IH].
Qed.

(** C5.  For every list of segments and every real threshold [t], the
    filter returns the scored segments whose score is at least [t], each
    one once and in the original order; [>=] on two reals is the usual
    order, so that a segment scoring exactly [t] is kept; and the result
    may be empty. *)
Theorem analyzeSentiment_selects (analyze : jsstring -> number)
  (segments : list Segment) (t : Q) :
  Selects (fun seg => nge (score seg) (Fin t) = true)
          (List.map (rescore analyze) segments)
          (analyzeSentiment analyze segments (Fin t))
  /\ (forall q, nge (Fin q) (Fin t) = true <-> t <= q)
  /\ (forall seg q,
        In seg segments -> analyze (text seg) = Fin q -> q == t ->
        In (rescore analyze seg) (analyzeSentiment analyze segments (Fin t)))
  /\ (forall seg,
        In seg (analyzeSentiment analyze segments (Fin t)) <->
        (exists original,
           In original segments /\ seg = rescore analyze original
           /\ nge (analyze (text original)) (Fin t) = true))
  /\ analyzeSentiment analyze [] (Fin t) = [].
Proof.
  unfold analyzeSentiment. split; [apply filter_Selects|].
  split; [intros q; apply nge_Fin_iff|]. split; [|split; [|reflexivity]].
  - intros seg q Hin Hq Heq. apply filter_In. split.
    + now apply in_map.
    + simpl. rewrite Hq. apply nge_Fin_iff. rewrite Heq. apply Qle_refl.
  - intros seg. rewrite filter_In, in_map_iff. split.
    + intros [[original [<- Hin]] Hge]. exists original. auto.
    + intros [original [Hin [-> Hge]]]. split; [|exact Hge].
      exists original. auto.
Qed.

Lemma analyzeSentiment_selects_witness :
  let seg := mkSegment (Fin 0) (Fin 3) (js "Great news today!") (Fin 0) in
  In seg (Upload.parseTranscript (js "Great news today!"))
  /\ demo_analyze (text seg) = Fin 3
  /\ In (rescore demo_analyze seg)
        (analyzeSentiment demo_analyze
           (Upload.parseTranscript (js "Great news today!")) (Fin 3)).
Proof.
  intros seg.
  assert (Hin : In seg (Upload.parseTranscript (js "Great news today!")))
    by (vm_compute; left; reflexivity).
  assert (Hscore : demo_analyze (text seg) = Fin 3)
    by (vm_compute; reflexivity).
  destruct (analyzeSentiment_selects demo_analyze
              (Upload.parseTranscript (js "Great news today!")) 3)
    as [_ [_ [Hkeep _]]].
  split; [exact Hin|]. split; [exact Hscore|].
  exact (Hkeep seg 3 Hin Hscore (Qeq_refl 3)).
Defined.

Lemma filter_length_le (A : Type) (p q : A -> bool) (l : list A) :
  (forall x, q x = true -> p x = true) ->
  (List.length (List.filter q l) <= List.length (List.filter p l))%nat.
Proof.
  intros Himp. induction l as [|x l IH]; simpl; [lia|].
  destruct (q x) eqn:Eq.
  - rewrite (Himp _ Eq). simpl. lia.
  - destruct (p x); simpl; lia.
Qed.

Lemma analyzeSentiment_monotone analyze segments t1 t2 :
  nlt t1 t2 = true ->
  (List.length (analyzeSentiment analyze segments t2)
   <= List.length (analyzeSentiment analyze segments t1))%nat.
Proof.
  intros Hlt. unfold analyzeSentiment. apply filter_length_le.
  intros seg. now apply nge_lower.
Qed.

(** C6.  For every transcript and every two thresholds with [t1 < t2], at
    least as many segments are kept at [t1] as at [t2], in both routes. *)
Theorem kept_count_monotone (analyze : jsstring -> number)
  (content : jsstring) (t1 t2 : number) :
  nlt t1 t2 = true ->
  (List.length (analyzeSentiment analyze (Upload.parseTranscript content) t2)
   <= List.length
        (analyzeSentiment analyze (Upload.parseTranscript content) t1))%nat
  /\ (List.length
        (analyzeSentiment analyze (Webhook.parseTranscript content) t2)
      <= List.length
           (analyzeSentiment analyze (Webhook.parseTranscript content)
              t1))%nat.
Proof.
  intros Hlt. split; now apply analyzeSentiment_monotone.
Qed.

Lemma kept_count_monotone_witness :
  nlt (Fin (-1)) (Fin 1) = true
  /\ (List.length
        (analyzeSentiment demo_analyze
           (Upload.parseTranscript (js "Great news. Terrible news."))
           (Fin 1))
      <= List.length
           (analyzeSentiment demo_analyze
              (Upload.parseTranscript (js "Great news. Terrible news."))
              (Fin (-1))))%nat
  /\ (List.length
        (analyzeSentiment demo_analyze
           (Webhook.parseTranscript (js "Great news. Terrible news."))
           (Fin 1))
      <= List.length
           (analyzeSentiment demo_analyze
              (Webhook.parseTranscript (js "Great news. Terrible news."))
              (Fin (-1))))%nat.
Proof.
  split; [reflexivity|].
  exact (kept_count_monotone demo_analyze (js "Great news. Terrible news.")
           (Fin (-1)) (Fin 1) eq_refl).
Defined.

(** ** The command *)

Lemma build_ffmpegCommand_none url kept :
  build_ffmpegCommand url kept = None <-> kept = [].
Proof.
  unfold build_ffmpegCommand. destruct kept as [|seg kept].
  - split; reflexivity.
  - change (0 <? List.length (seg :: kept)) with true. cbv iota.
    split; discriminate.
Qed.

(** C7.  Whenever no segment is kept, the request is still answered with a
    success body, and its [ffmpegCommand] is [null]; the command is [null]
    in no other case. *)
Theorem no_kept_segment_no_command (analyze : jsstring -> number)
  (url content : jsstring) :
  (forall kept, build_ffmpegCommand url kept = None <-> kept = [])
  /\ (forall thr,
        truthy url = true ->
        analyzeSentiment analyze (Upload.parseTranscript content)
          (parseFloat (string_of_field thr)) = [] ->
        exists body,
          Upload.POST analyze (Upload.mkForm (Some content) (Some url) thr)
          = Success body
          /\ Upload.success body = true
          /\ Upload.segments body = []
          /\ Upload.ffmpegCommand body = None)
  /\ (forall transcript transcriptContent thr,
        truthy url = true ->
        (if Webhook.falsy transcriptContent then transcript
         else transcriptContent) = Some content ->
        truthy content = true ->
        analyzeSentiment analyze (Webhook.parseTranscript content)
          (match thr with Some t => t | None => Fin 0 end) = [] ->
        exists body,
          Webhook.POST analyze
            (Webhook.mkJson transcript transcriptContent (Some url) thr)
          = Success body
          /\ Webhook.success body = true
          /\ Webhook.segments body = []
          /\ Webhook.ffmpegCommand body = None).
Proof.
  split; [intros kept; apply build_ffmpegCommand_none|]. split.
  - intros thr Hurl Hkept. rewrite upload_POST_valid by exact Hurl.
    cbv zeta. rewrite Hkept. eexists. split; [reflexivity|].
    cbn [Upload.success Upload.segments Upload.ffmpegCommand].
    split; [reflexivity|]. split; reflexivity.
  - intros transcript transcriptContent thr Hurl Hsel Hcontent Hkept.
    rewrite (webhook_POST_valid analyze _ _ _ _ thr Hurl Hsel Hcontent).
    cbv zeta. rewrite Hkept. eexists. split; [reflexivity|].
    cbn [Webhook.success Webhook.segments Webhook.ffmpegCommand].
    split; [reflexivity|]. split; reflexivity.
Qed.

Lemma no_kept_segment_no_command_witness :
  (exists body,
     Upload.POST demo_analyze
       (Upload.mkForm (Some (js "Terrible news.")) (Some (js "v.mp4"))
          (Some (js "0")))
     = Success body
     /\ Upload.success body = true
     /\ Upload.segments body = []
     /\ Upload.ffmpegCommand body = None)
  /\ (exists body,
        Webhook.POST demo_analyze
          (Webhook.mkJson None (Some (js "Terrible news."))
             (Some (js "v.mp4")) None)
        = Success body
        /\ Webhook.success body = true
        /\ Webhook.segments body = []
        /\ Webhook.ffmpegCommand body = None).
Proof.
  split.
  - refine (proj1 (proj2 (no_kept_segment_no_command demo_analyze
                            (js "v.mp4") (js "Terrible news.")))
              (Some (js "0")) _ _); vm_compute; reflexivity.
  - refine (proj2 (proj2 (no_kept_segment_no_command demo_analyze
                            (js "v.mp4") (js "Terrible news.")))
              None (Some (js "Terrible news.")) None _ _ _ _);
      vm_compute; reflexivity.
Defined.

(** ** The sentence scanner *)

Lemma span_app (A : Type) (p : A -> bool) l a r :
  span p l = (a, r) -> l = a ++ r.
Proof.
  revert a r. induction l as [|c l IH]; simpl; intros a r H.
  - now injection H as <- <-.
  - destruct (p c).
    + destruct (span p l) as [a' r'] eqn:E. injection H as <- <-.
      simpl. f_equal. now apply IH.
    + now injection H as <- <-.
Qed.

Lemma span_prefix (A : Type) (p : A -> bool) l a r :
  span p l = (a, r) -> forallb p a = true.
Proof.
  revert a r. induction l as [|c l IH]; simpl; intros a r H.
  - now injection H as <- <-.
  - destruct (p c) eqn:Ec.
    + destruct (span p l) as [a' r'] eqn:E. injection H as <- <-.
      simpl. rewrite Ec. simpl. now apply (IH a' r').
    + now injection H as <- <-.
Qed.

Lemma span_rest (A : Type) (p : A -> bool) l a r :
  span p l = (a, r) ->
  match r with [] => True | c :: _ => p c = false end.
Proof.
  revert a r. induction l as [|c l IH]; simpl; intros a r H.
  - now injection H as <- <-.
  - destruct (p c) eqn:Ec.
    + destruct (span p l) as [a' r'] eqn:E. injection H as <- <-.
      now apply (IH a' r').
    + injection H as <- <-. exact Ec.
Qed.

Lemma span_all (A : Type) (p : A -> bool) l :
  forallb p l = true -> span p l = (l, []).
Proof.
  induction l as [|c l IH]; simpl; [reflexivity|].
  intros H. apply andb_prop in H. destruct H as [Hc Hl].
  now rewrite Hc, IH.
Qed.

Lemma sentence_here_spec s m r :
  sentence_here s = Some (m, r) ->
  s = m ++ r /\ m <> [] /\ sentence_chunk m /\ head_ok r.
Proof.
  unfold sentence_here.
  destruct (span (fun c => negb (isTerminator c)) s) as [a r1] eqn:Ea.
  destruct a as [|x a]; [discriminate|].
  destruct (span isTerminator r1) as [b r2] eqn:Eb.
  destruct b as [|y b]; [discriminate|].
  intros H. injection H as <- <-.
  pose proof (span_app _ _ _ _ _ Ea) as ->. pose proof (span_app _ _ _ _ _ Eb) as ->.
  split; [apply app_assoc|]. split; [discriminate|]. split.
  - exists (x :: a), (y :: b). repeat split; try discriminate.
    + exact (span_prefix _ _ _ _ _ Ea).
    + exact (span_prefix _ _ _ _ _ Eb).
  - exact (span_rest _ _ _ _ _ Eb).
Qed.

(** Passing over the code units of the last match. *)
Lemma exec_all_skip (M : Type) (here : jsstring -> option (M * jsstring))
  a k r :
  exec_all here (List.length a + k) (a ++ r) = exec_all here k r.
Proof.
  induction a as [|c a IH]; simpl; [reflexivity | exact IH].
Qed.

(** One turn of the loop when the pattern matches at the head. *)
Lemma exec_all_match (M : Type) (here : jsstring -> option (M * jsstring))
  s m a r :
  here s = Some (m, r) -> s = a ++ r -> a <> [] ->
  exec_all here 0 s = m :: exec_all here 0 r.
Proof.
  intros Hhere -> Ha. destruct a as [|c a]; [congruence|].
  cbn [app exec_all]. cbn [app] in Hhere. rewrite Hhere. f_equal.
  replace (List.length (c :: a ++ r) - List.length r - 1)%nat
    with (List.length a + 0)%nat
    by (cbn [List.length]; rewrite length_app; lia).
  apply exec_all_skip.
Qed.

Lemma sentences_none k s :
  forallb nonTerminator s = true -> exec_all sentence_here k s = [].
Proof.
  revert k. induction s as [|c s IH]; intros k H; [reflexivity|].
  simpl. destruct k as [|k].
  - assert (sentence_here (c :: s) = None) as ->.
    { unfold sentence_here. fold nonTerminator. rewrite (span_all _ _ _ H).
      reflexivity. }
    simpl in H. apply andb_prop in H. now apply IH.
  - simpl in H. apply andb_prop in H. now apply IH.
Qed.




(** ** The layout of the plain-text segments *)




Lemma Qle_bool_false (x y : Q) : Qle_bool x y = false -> y < x.
Proof.
  intros H. apply Qnot_le_lt. intros Hle.
  apply Qle_bool_iff in Hle. congruence.
Qed.

Lemma clamp_spec (y : Q) :
  exists d,
    Math_max (Fin 3) (Math_min (Fin 10) (Fin y)) = Fin d
    /\ d == Qmax 3 (Qmin 10 y).
Proof.
  cbn [Math_min nge]. destruct (Qle_bool 10 y) eqn:E1.
  - exists 10. split; [reflexivity|]. apply Qle_bool_iff in E1.
    rewrite (Q.min_l 10 y E1). reflexivity.
  - apply Qle_bool_false in E1. cbn [Math_max nge].
    pose proof (Q.min_r 10 y (Qlt_le_weak _ _ E1)) as Hmin.
    destruct (Qle_bool y 3) eqn:E2.
    + exists 3. split; [reflexivity|]. apply Qle_bool_iff in E2.
      rewrite Hmin. now rewrite (Q.max_l 3 y E2).
    + exists y. split; [reflexivity|]. apply Qle_bool_false in E2.
      rewrite Hmin. now rewrite (Q.max_r 3 y (Qlt_le_weak _ _ E2)).
Qed.

(** The duration given to a chunk is [max(3, min(10, length/10))]. *)
Lemma duration_of_spec s :
  exists d, duration_of s = Fin d /\ d == spec_duration (List.length s).
Proof.
  unfold duration_of, length_of, of_nat, spec_duration.
  set (x := inject_Z (Z.of_nat (List.length s))).
  change (ndiv (Fin x) (Fin 10)) with (Fin (Qred (x / 10))).
  destruct (clamp_spec (Qred (x / 10))) as [d [Hd Hq]].
  exists d. split; [exact Hd|].
  rewrite Hq. now rewrite (Qred_correct (x / 10)).
Qed.


Lemma webhook_parse_plain content :
  srt_segments content = [] ->
  Webhook.parseTranscript content = plain_segments content.
Proof.
  intros Hsrt. unfold Webhook.parseTranscript. now rewrite Hsrt.
Qed.



(** ** Time codes written with two and three digits *)

Lemma isDigit_digit_char d : (d < 10)%nat -> isDigit (digit_char d) = true.
Proof.
  intros H. unfold isDigit, digit_char.
  apply andb_true_intro. split; apply N.leb_le; lia.
Qed.

Lemma forallb_seq (p : nat -> bool) (bound n : nat) :
  forallb p (seq 0 bound) = true -> (n < bound)%nat -> p n = true.
Proof.
  intros H Hn. rewrite forallb_forall in H. apply H. apply in_seq. lia.
Qed.

Lemma parseInt_pad2 n : (n < 100)%nat -> parseInt (pad2 n) = of_nat n.
Proof.
  intros H. apply number_eqb_eq.
  apply (forallb_seq (fun n => number_eqb (parseInt (pad2 n)) (of_nat n)) 100);
    [vm_compute; reflexivity | exact H].
Qed.

Lemma parseInt_pad3 n : (n < 1000)%nat -> parseInt (pad3 n) = of_nat n.
Proof.
  intros H. apply number_eqb_eq.
  apply (forallb_seq (fun n => number_eqb (parseInt (pad3 n)) (of_nat n))
           1000);
    [vm_compute; reflexivity | exact H].
Qed.

Lemma digits_pad2 n r :
  (n < 100)%nat -> digits 2 (pad2 n ++ r) = Some (pad2 n, r).
Proof.
  intros H. unfold pad2. cbn [digits app].
  rewrite !isDigit_digit_char; [reflexivity | |].
  - apply Nat.mod_upper_bound. lia.
  - apply Nat.Div0.div_lt_upper_bound. lia.
Qed.


Lemma strip_prefix_app pre r : strip_prefix pre (pre ++ r) = Some r.
Proof.
  induction pre as [|c pre IH]; simpl; [reflexivity|].
  now rewrite N.eqb_refl.
Qed.


(** [h*3600 + m*60 + s + ms/1000] as the code computes it. *)
Lemma seconds_arith (h m s ms : nat) :
  nadd (nadd (nadd (nmul (of_nat h) (Fin 3600)) (nmul (of_nat m) (Fin 60)))
             (of_nat s))
       (ndiv (of_nat ms) (Fin 1000))
  = fin (seconds_of h m s ms).
Proof.
  unfold of_nat.
  change (ndiv (Fin (inject_Z (Z.of_nat ms))) (Fin 1000))
    with (fin (inject_Z (Z.of_nat ms) / 1000)).
  repeat (rewrite ?nmul_Fin, ?nadd_Fin; unfold fin).
  f_equal. apply Qred_complete.
  unfold seconds_of. now rewrite !Qred_correct.
Qed.

Lemma seconds_arith_no_ms (h m s : nat) :
  nadd (nadd (nmul (of_nat h) (Fin 3600)) (nmul (of_nat m) (Fin 60)))
       (of_nat s)
  = fin (seconds_of h m s 0).
Proof.
  unfold of_nat. repeat (rewrite ?nmul_Fin, ?nadd_Fin; unfold fin).
  f_equal. apply Qred_complete. unfold seconds_of. rewrite !Qred_correct.
  change (inject_Z (Z.of_nat 0) / 1000) with (0 / 1000).
  unfold Qdiv. rewrite Qmult_0_l. now rewrite Qplus_0_r.
Qed.

(** ** A subtitle block, scanned *)

Lemma strip_LF_none r : forallb notLF r = true -> strip_prefix [LF] r = None.
Proof.
  destruct r as [|c r]; [reflexivity|]. cbn [forallb strip_prefix].
  intros H. apply andb_prop in H. destruct H as [Hc _].
  unfold notLF in Hc. apply negb_true_iff in Hc. rewrite N.eqb_sym in Hc.
  now rewrite Hc.
Qed.




(** ** Input without a line feed *)

Lemma srt_here_line s : forallb notLF s = true -> srt_here s = None.
Proof.
  intros H. unfold srt_here, digits_plus.
  destruct (span isDigit s) as [d r] eqn:E.
  destruct d as [|x d]; [reflexivity|]. cbn [obind].
  rewrite strip_LF_none; [reflexivity|].
  rewrite (span_app _ _ _ _ _ E), forallb_app in H.
  now apply andb_prop in H.
Qed.

Lemma srt_segments_line s : forallb notLF s = true -> srt_segments s = [].
Proof.
  intros H. unfold srt_segments.
  assert (forall k, exec_all srt_here k s = []) as ->; [|reflexivity].
  induction s as [|c s IH]; intros k; [reflexivity|].
  cbn [exec_all]. rewrite (srt_here_line _ H).
  cbn [forallb] in H. apply andb_prop in H.
  destruct k; now apply IH.
Qed.




(** ** A bracketed line, scanned *)

Lemma bracket_here_line h m s body :
  (h < 100)%nat -> (m < 100)%nat -> (s < 100)%nat ->
  bracket_here (bracket_line h m s body)
  = Some (pad2 h, pad2 m, pad2 s, bracket_text body).
Proof.
  intros Hh Hm Hs. unfold bracket_here, bracket_line.
  rewrite strip_prefix_app. cbn [obind].
  rewrite (digits_pad2 h _ Hh). cbn [obind]. rewrite strip_prefix_app.
  cbn [obind]. rewrite (digits_pad2 m _ Hm). cbn [obind].
  rewrite strip_prefix_app. cbn [obind].
  rewrite (digits_pad2 s _ Hs). cbn [obind].
  change (js "] " ++ body) with (js "]" ++ 32%N :: body).
  rewrite strip_prefix_app. cbn [obind]. reflexivity.
Qed.

Lemma bracket_match_here line m :
  bracket_here line = Some m -> bracket_match line = Some m.
Proof. intros H. destruct line; cbn [bracket_match]; now rewrite H. Qed.

Lemma bracket_line_segment_line h m s body :
  (h < 100)%nat -> (m < 100)%nat -> (s < 100)%nat ->
  bracket_line_segment (bracket_line h m s body)
  = [mkSegment (fin (seconds_of h m s 0))
       (nadd (fin (seconds_of h m s 0)) (Fin 5))
       (trim (bracket_text body)) (Fin 0)].
Proof.
  intros Hh Hm Hs. unfold bracket_line_segment.
  rewrite (bracket_match_here _ _ (bracket_here_line h m s body Hh Hm Hs)).
  rewrite !parseInt_pad2 by assumption.
  now rewrite seconds_arith_no_ms.
Qed.

Lemma concat_mapi_from (A B : Type) (f : A -> nat -> list B)
  (g : A -> list B) i l :
  (forall x j, f x j = g x) ->
  List.concat (mapi_from f i l) = flat_map g l.
Proof.
  intros Hfg. revert i. induction l as [|x l IH]; intros i; simpl.
  - reflexivity.
  - now rewrite Hfg, IH.
Qed.

(** The index of the line plays no part: both branches of the conditional
    that reads it give [start + 5]. *)
Lemma bracket_segments_by_line content :
  Upload.bracket_segments content
  = flat_map bracket_line_segment (nonblank_lines content).
Proof.
  unfold Upload.bracket_segments, mapi. fold (nonblank_lines content).
  apply concat_mapi_from. intros line j. unfold bracket_line_segment.
  destruct (bracket_match line) as [[[[h m] s] t]|]; [|reflexivity].
  now destruct (j <? List.length (nonblank_lines content) - 1).
Qed.

Lemma bracket_segments_end content :
  Forall (fun seg => end_ seg = nadd (start seg) (Fin 5))
         (Upload.bracket_segments content).
Proof.
  rewrite bracket_segments_by_line. apply Forall_forall. intros seg Hin.
  apply in_flat_map in Hin. destruct Hin as [line [_ Hin]].
  unfold bracket_line_segment in Hin.
  destruct (bracket_match line) as [[[[h m] s] t]|]; simpl in Hin.
  - destruct Hin as [<-|[]]. reflexivity.
  - contradiction.
Qed.





(** ** The time codes *)



(** ** The bracketed lines *)

Lemma upload_parse_srt content :
  srt_segments content <> [] ->
  Upload.parseTranscript content = srt_segments content.
Proof.
  intros H. unfold Upload.parseTranscript.
  destruct (srt_segments content) as [|seg l]; [congruence | reflexivity].
Qed.

Lemma upload_parse_bracket content :
  srt_segments content = [] -> Upload.bracket_segments content <> [] ->
  Upload.parseTranscript content = Upload.bracket_segments content.
Proof.
  intros Hsrt H. unfold Upload.parseTranscript. rewrite Hsrt.
  cbn [List.length Nat.eqb].
  destruct (Upload.bracket_segments content) as [|seg l];
    [congruence | reflexivity].
Qed.

Lemma webhook_parse_cases content :
  Webhook.parseTranscript content
  = match srt_segments content with
    | [] => plain_segments content
    | _ :: _ => srt_segments content
    end.
Proof.
  unfold Webhook.parseTranscript.
  now destruct (srt_segments content).
Qed.

(** C9.  In the upload route the bracketed lines are looked at only when
    the subtitle-block scan found nothing, and their segments are the
    result when there are any: one segment for each line that is not blank
    and matches, starting at [h*3600 + m*60 + s] and ending five seconds
    later whatever the next line says, so that consecutive segments overlap
    (lines two seconds apart) or leave a gap (lines ten seconds apart).
    The webhook route goes from the subtitle-block scan straight to the
    plain-text block, also on bracketed lines. *)
Theorem bracketed_lines (content : jsstring) :
  (srt_segments content <> [] ->
   Upload.parseTranscript content = srt_segments content)
  /\ (srt_segments content = [] -> Upload.bracket_segments content <> [] ->
      Upload.parseTranscript content = Upload.bracket_segments content)
  /\ Upload.bracket_segments content
     = flat_map bracket_line_segment (nonblank_lines content)
  /\ Forall (fun seg => end_ seg = nadd (start seg) (Fin 5))
            (Upload.bracket_segments content)
  /\ (forall h m s body,
        (h < 100)%nat -> (m < 100)%nat -> (s < 100)%nat ->
        exists start,
          bracket_line_segment (bracket_line h m s body)
          = [mkSegment (Fin start) (nadd (Fin start) (Fin 5))
               (trim (bracket_text body)) (Fin 0)]
          /\ start == inject_Z (Z.of_nat h) * 3600
                      + inject_Z (Z.of_nat m) * 60 + inject_Z (Z.of_nat s))
  /\ Upload.parseTranscript overlapping_lines
     = [mkSegment (Fin 0) (Fin 5) (js "a") (Fin 0);
        mkSegment (Fin 2) (Fin 7) (js "b") (Fin 0)]
  /\ Upload.parseTranscript gapped_lines
     = [mkSegment (Fin 0) (Fin 5) (js "a") (Fin 0);
        mkSegment (Fin 10) (Fin 15) (js "b") (Fin 0)]
  /\ Webhook.parseTranscript content
     = match srt_segments content with
       | [] => plain_segments content
       | _ :: _ => srt_segments content
       end
  /\ Webhook.parseTranscript overlapping_lines
     = [mkSegment (Fin 0) (Fin 3) overlapping_lines (Fin 0)].
Proof.
  split; [apply upload_parse_srt|].
  split; [apply upload_parse_bracket|].
  split; [apply bracket_segments_by_line|].
  split; [apply bracket_segments_end|].
  split; [|split; [|split; [|split]]].
  - intros h m s body Hh Hm Hs. exists (Qred (seconds_of h m s 0)). split.
    + exact (bracket_line_segment_line h m s body Hh Hm Hs).
    + rewrite Qred_correct. unfold seconds_of.
      change (inject_Z (Z.of_nat 0) / 1000) with (0 / 1000).
      unfold Qdiv. rewrite Qmult_0_l. now rewrite Qplus_0_r.
  - vm_compute. reflexivity.
  - vm_compute. reflexivity.
  - apply webhook_parse_cases.
  - vm_compute. reflexivity.
Qed.

Lemma bracketed_lines_witness :
  srt_segments overlapping_lines = []
  /\ Upload.bracket_segments overlapping_lines <> []
  /\ Upload.parseTranscript overlapping_lines
     = Upload.bracket_segments overlapping_lines
  /\ exists start,
       bracket_line_segment (bracket_line 0 75 1 (js "Great news"))
       = [mkSegment (Fin start) (nadd (Fin start) (Fin 5))
            (trim (bracket_text (js "Great news"))) (Fin 0)]
       /\ start == inject_Z (Z.of_nat 0) * 3600
                   + inject_Z (Z.of_nat 75) * 60 + inject_Z (Z.of_nat 1).
Proof.
  assert (Hsrt : srt_segments overlapping_lines = [])
    by (vm_compute; reflexivity).
  assert (Hbr : Upload.bracket_segments overlapping_lines <> [])
    by (vm_compute; discriminate).
  destruct (bracketed_lines overlapping_lines)
    as [_ [Hup [_ [_ [Hline _]]]]].
  split; [exact Hsrt|]. split; [exact Hbr|].
  split; [exact (Hup Hsrt Hbr)|].
  apply Hline; lia.
Defined.

(** * Further properties of the routes *)

(** ** Which requests are turned away *)



(** X3.  Of the two names for the transcript, [transcriptContent] wins
    when it is present and not empty, and [transcript] is then not looked
    at; otherwise [transcript] is used: the answer is that of the request
    carrying the chosen text as [transcriptContent] alone. *)
Theorem webhook_transcript_precedence (analyze : jsstring -> number)
  (transcript transcriptContent videoUrl : option jsstring)
  (threshold : option number) :
  Webhook.POST analyze
    (Webhook.mkJson transcript transcriptContent videoUrl threshold)
  = Webhook.POST analyze
      (Webhook.mkJson None
         (if present transcriptContent then transcriptContent
          else transcript)
         videoUrl threshold).
Proof.
  unfold Webhook.POST.
  cbn [Webhook.json_videoUrl Webhook.json_transcriptContent
       Webhook.json_transcript Webhook.json_threshold].
  destruct videoUrl as [url|]; [|reflexivity].
  destruct (truthy url); cbn [negb]; [|reflexivity].
  destruct transcriptContent as [c|], transcript as [t|];
    cbn [present Webhook.falsy];
    try destruct (truthy c) eqn:Hc; try destruct (truthy t) eqn:Ht;
    cbn [negb Webhook.falsy]; rewrite ?Hc, ?Ht; cbn [negb];
    rewrite ?Hc, ?Ht; reflexivity.
Qed.

(** ** What a success body holds *)

Lemma kept_meet_threshold analyze segments threshold :
  Forall (fun seg => score seg = analyze (text seg)
                     /\ nge (score seg) threshold = true)
         (analyzeSentiment analyze segments threshold).
Proof.
  apply Forall_forall. intros seg Hin. unfold analyzeSentiment in Hin.
  apply filter_In in Hin. destruct Hin as [Hin Hge].
  apply in_map_iff in Hin. destruct Hin as [original [<- _]].
  split; [reflexivity | exact Hge].
Qed.

Lemma kept_at_most analyze segments threshold :
  (List.length (analyzeSentiment analyze segments threshold)
   <= List.length segments)%nat.
Proof.
  unfold analyzeSentiment.
  rewrite <- (length_map (rescore analyze) segments).
  apply List.filter_length_le.
Qed.

Lemma command_none_iff_zero url kept :
  build_ffmpegCommand url kept = None <-> List.length kept = 0%nat.
Proof.
  rewrite build_ffmpegCommand_none. destruct kept; simpl; split;
    intros H; try reflexivity; discriminate.
Qed.

Lemma nonempty_length (A : Type) (l : list A) :
  l <> [] -> (1 <= List.length l)%nat.
Proof. destruct l; [congruence | simpl; lia]. Qed.

(** X4.  In every success body of the upload route the counts, the echo
    of the request and the duplicated block agree: at least one segment was
    parsed, [matchingSegments] is the number of segments returned and
    never exceeds [totalSegments], every returned segment carries the
    scorer's score of its text and that score meets the echoed threshold,
    [ffmpegCommand] is [null] exactly when the count is 0, and [n8nData]
    repeats the same segments, URL, threshold and statistics. *)
Theorem upload_body_consistent (analyze : jsstring -> number)
  (request : Upload.Form) (body : Upload.Body) :
  Upload.POST analyze request = Success body ->
  Upload.success body = true
  /\ Upload.form_videoUrl request = Some (Upload.videoUrl body)
  /\ Upload.threshold body
     = parseFloat (string_of_field (Upload.form_threshold request))
  /\ (1 <= Upload.totalSegments body)%nat
  /\ Upload.matchingSegments body = List.length (Upload.segments body)
  /\ (Upload.matchingSegments body <= Upload.totalSegments body)%nat
  /\ Forall (fun seg => score seg = analyze (text seg)
                        /\ nge (score seg) (Upload.threshold body) = true)
            (Upload.segments body)
  /\ (Upload.ffmpegCommand body = None
      <-> Upload.matchingSegments body = 0%nat)
  /\ Upload.n8nData body
     = Upload.mkN8nData (Upload.segments body) (Upload.videoUrl body)
         (Upload.threshold body)
         (Upload.mkStatistics (Upload.totalSegments body)
            (Upload.matchingSegments body) (Upload.averageSentiment body)).
Proof.
  destruct request as [[content|] [url|] thr];
    try (unfold Upload.POST; discriminate).
  destruct (truthy url) eqn:Hurl.
  - rewrite (upload_POST_valid analyze content url thr Hurl). cbv zeta.
    intros H. injection H as <-.
    cbn [Upload.success Upload.videoUrl Upload.threshold Upload.totalSegments
         Upload.matchingSegments Upload.segments Upload.ffmpegCommand
         Upload.n8nData Upload.averageSentiment Upload.form_videoUrl
         Upload.form_threshold].
    split; [reflexivity|]. split; [reflexivity|]. split; [reflexivity|].
    split; [apply nonempty_length, upload_parse_nonempty|].
    split; [reflexivity|]. split; [apply kept_at_most|].
    split; [apply kept_meet_threshold|].
    split; [apply command_none_iff_zero | reflexivity].
  - unfold Upload.POST. cbn [Upload.form_transcript Upload.form_videoUrl].
    rewrite Hurl. discriminate.
Qed.

Lemma upload_body_consistent_witness :
  exists body,
    Upload.POST demo_analyze
      (Upload.mkForm (Some (js "Great news. Terrible news."))
         (Some (js "v.mp4")) (Some (js "0")))
    = Success body
    /\ Upload.totalSegments body = 2%nat
    /\ Upload.matchingSegments body = 1%nat
    /\ (Upload.matchingSegments body <= Upload.totalSegments body)%nat.
Proof.
  eexists. split; [vm_compute; reflexivity|].
  split; [reflexivity|]. split; [reflexivity|].
  refine (proj1 (proj2 (proj2 (proj2 (proj2 (proj2
            (upload_body_consistent demo_analyze
               (Upload.mkForm (Some (js "Great news. Terrible news."))
                  (Some (js "v.mp4")) (Some (js "0"))) _ _))))))).
  vm_compute. reflexivity.
Defined.

(** ** Thresholds no score can reach, and one every score reaches *)

Lemma filter_none (A : Type) (p : A -> bool) (l : list A) :
  (forall x, In x l -> p x = false) -> List.filter p l = [].
Proof.
  induction l as [|x l IH]; intros H; simpl; [reflexivity|].
  rewrite (H x (or_introl eq_refl)). apply IH.
  intros y Hy. apply H. now right.
Qed.

Lemma filter_all (A : Type) (p : A -> bool) (l : list A) :
  (forall x, In x l -> p x = true) -> List.filter p l = l.
Proof.
  induction l as [|x l IH]; intros H; simpl; [reflexivity|].
  rewrite (H x (or_introl eq_refl)). f_equal. apply IH.
  intros y Hy. apply H. now right.
Qed.

Lemma nge_NaN_r x : nge x NaN = false.
Proof. now destruct x. Qed.

(** X5.  A threshold that is not a number keeps nothing, whatever the
    scorer: an upload whose threshold field is absent, empty or not
    numeric is therefore answered with a success body that has no segment
    and no command.  When every score is finite, the threshold
    [Infinity] keeps nothing either and [-Infinity] keeps every segment. *)
Theorem unreachable_thresholds (analyze : jsstring -> number)
  (segments : list Segment) :
  analyzeSentiment analyze segments NaN = []
  /\ (finite_scorer analyze ->
      analyzeSentiment analyze segments PInf = []
      /\ analyzeSentiment analyze segments NInf
         = List.map (rescore analyze) segments)
  /\ (forall content url thr,
        truthy url = true ->
        parseFloat (string_of_field thr) = NaN ->
        exists body,
          Upload.POST analyze (Upload.mkForm (Some content) (Some url) thr)
          = Success body
          /\ Upload.segments body = []
          /\ Upload.matchingSegments body = 0%nat
          /\ Upload.ffmpegCommand body = None).
Proof.
  split; [|split].
  - unfold analyzeSentiment. apply filter_none. intros seg _.
    apply nge_NaN_r.
  - intros Hfin. unfold analyzeSentiment. split.
    + apply filter_none. intros seg Hin. apply in_map_iff in Hin.
      destruct Hin as [original [<- _]]. cbn [rescore score].
      destruct (Hfin (text original)) as [q ->]. reflexivity.
    + apply filter_all. intros seg Hin. apply in_map_iff in Hin.
      destruct Hin as [original [<- _]]. cbn [rescore score].
      destruct (Hfin (text original)) as [q ->]. reflexivity.
  - intros content url thr Hurl Hnan.
    rewrite (upload_POST_valid analyze content url thr Hurl). cbv zeta.
    rewrite Hnan.
    assert (analyzeSentiment analyze (Upload.parseTranscript content) NaN
            = []) as ->.
    { unfold analyzeSentiment. apply filter_none. intros seg _.
      apply nge_NaN_r. }
    eexists. split; [reflexivity|].
    cbn [Upload.segments Upload.matchingSegments Upload.ffmpegCommand].
    split; [reflexivity|]. split; reflexivity.
Qed.

Lemma demo_analyze_finite : finite_scorer demo_analyze.
Proof. intros t. unfold demo_analyze, of_Z. eexists. reflexivity. Qed.

Lemma unreachable_thresholds_witness :
  parseFloat (string_of_field None) = NaN
  /\ parseFloat (string_of_field (Some [])) = NaN
  /\ parseFloat (string_of_field (Some (js "high"))) = NaN
  /\ (exists body,
        Upload.POST demo_analyze
          (Upload.mkForm (Some (js "Great news today!")) (Some (js "v.mp4"))
             (Some (js "high")))
        = Success body
        /\ Upload.segments body = []
        /\ Upload.matchingSegments body = 0%nat
        /\ Upload.ffmpegCommand body = None)
  /\ analyzeSentiment demo_analyze
       (Upload.parseTranscript (js "Great news today!")) PInf = []
  /\ analyzeSentiment demo_analyze
       (Upload.parseTranscript (js "Great news today!")) NInf
     = List.map (rescore demo_analyze)
         (Upload.parseTranscript (js "Great news today!")).
Proof.
  split; [vm_compute; reflexivity|]. split; [vm_compute; reflexivity|].
  split; [vm_compute; reflexivity|].
  destruct (unreachable_thresholds demo_analyze
              (Upload.parseTranscript (js "Great news today!")))
    as [_ [Hfin Hup]].
  split.
  - refine (Hup (js "Great news today!") (js "v.mp4") (Some (js "high")) _ _);
      vm_compute; reflexivity.
  - exact (Hfin demo_analyze_finite).
Defined.

(** ** What the scanners capture *)

Lemma isDigit_inv c :
  isDigit c = true -> exists d, (d < 10)%nat /\ c = digit_char d.
Proof.
  unfold isDigit. intros H. apply andb_prop in H. destruct H as [Hlo Hhi].
  apply N.leb_le in Hlo. apply N.leb_le in Hhi.
  exists (N.to_nat (c - 48)). split; [lia|].
  unfold digit_char. rewrite N2Nat.id. lia.
Qed.

Lemma pad2_digits k1 k2 :
  (k1 < 10)%nat -> (k2 < 10)%nat ->
  [digit_char k1; digit_char k2] = pad2 (k1 * 10 + k2).
Proof.
  intros H1 H2. unfold pad2.
  assert (((k1 * 10 + k2) / 10 = k1)%nat) as ->.
  { symmetry. apply (Nat.div_unique _ 10 k1 k2); lia. }
  assert (((k1 * 10 + k2) mod 10 = k2)%nat) as ->.
  { symmetry. apply (Nat.mod_unique _ 10 k1 k2); lia. }
  reflexivity.
Qed.

Lemma pad3_digits k1 k2 k3 :
  (k1 < 10)%nat -> (k2 < 10)%nat -> (k3 < 10)%nat ->
  [digit_char k1; digit_char k2; digit_char k3]
  = pad3 (k1 * 100 + k2 * 10 + k3).
Proof.
  intros H1 H2 H3. unfold pad3.
  assert (((k1 * 100 + k2 * 10 + k3) / 100 = k1)%nat) as ->.
  { symmetry. apply (Nat.div_unique _ 100 k1 (k2 * 10 + k3)); lia. }
  assert (((k1 * 100 + k2 * 10 + k3) / 10 = k1 * 10 + k2)%nat) as ->.
  { symmetry. apply (Nat.div_unique _ 10 (k1 * 10 + k2) k3); lia. }
  assert (((k1 * 10 + k2) mod 10 = k2)%nat) as ->.
  { symmetry. apply (Nat.mod_unique _ 10 k1 k2); lia. }
  assert (((k1 * 100 + k2 * 10 + k3) mod 10 = k3)%nat) as ->.
  { symmetry. apply (Nat.mod_unique _ 10 (k1 * 10 + k2) k3); lia. }
  reflexivity.
Qed.

Lemma digits_2_inv s d r :
  digits 2 s = Some (d, r) -> exists n, (n < 100)%nat /\ d = pad2 n.
Proof.
  destruct s as [|c1 [|c2 s']]; cbn [digits obind]; try discriminate.
  - destruct (isDigit c1); discriminate.
  - destruct (isDigit c1) eqn:E1; [|discriminate].
    destruct (isDigit c2) eqn:E2; [|discriminate].
    cbn [obind]. intros H. injection H as <- _.
    destruct (isDigit_inv c1 E1) as [k1 [H1 ->]].
    destruct (isDigit_inv c2 E2) as [k2 [H2 ->]].
    exists (k1 * 10 + k2)%nat. split; [lia | now apply pad2_digits].
Qed.

Lemma digits_3_inv s d r :
  digits 3 s = Some (d, r) -> exists n, (n < 1000)%nat /\ d = pad3 n.
Proof.
  destruct s as [|c1 [|c2 [|c3 s']]]; cbn [digits obind]; try discriminate.
  - destruct (isDigit c1); discriminate.
  - destruct (isDigit c1); [|discriminate].
    destruct (isDigit c2); discriminate.
  - destruct (isDigit c1) eqn:E1; [|discriminate].
    destruct (isDigit c2) eqn:E2; [|discriminate].
    destruct (isDigit c3) eqn:E3; [|discriminate].
    cbn [obind]. intros H. injection H as <- _.
    destruct (isDigit_inv c1 E1) as [k1 [H1 ->]].
    destruct (isDigit_inv c2 E2) as [k2 [H2 ->]].
    destruct (isDigit_inv c3 E3) as [k3 [H3 ->]].
    exists (k1 * 100 + k2 * 10 + k3)%nat.
    split; [lia | now apply pad3_digits].
Qed.

Lemma timecode_inv s h m sec ms r :
  timecode s = Some (h, m, sec, ms, r) ->
  exists nh nm ns nms,
    (nh < 100)%nat /\ (nm < 100)%nat /\ (ns < 100)%nat /\ (nms < 1000)%nat
    /\ h = pad2 nh /\ m = pad2 nm /\ sec = pad2 ns /\ ms = pad3 nms.
Proof.
  unfold timecode.
  destruct (digits 2 s) as [[h' r1]|] eqn:E1; cbn [obind]; [|discriminate].
  destruct (strip_prefix (js ":") r1) as [r2|]; cbn [obind]; [|discriminate].
  destruct (digits 2 r2) as [[m' r3]|] eqn:E2; cbn [obind]; [|discriminate].
  destruct (strip_prefix (js ":") r3) as [r4|]; cbn [obind]; [|discriminate].
  destruct (digits 2 r4) as [[s' r5]|] eqn:E3; cbn [obind]; [|discriminate].
  destruct (strip_prefix (js ",") r5) as [r6|]; cbn [obind]; [|discriminate].
  destruct (digits 3 r6) as [[ms' r7]|] eqn:E4; cbn [obind]; [|discriminate].
  intros H. injection H as <- <- <- <- _.
  destruct (digits_2_inv _ _ _ E1) as [nh [Hh ->]].
  destruct (digits_2_inv _ _ _ E2) as [nm [Hm ->]].
  destruct (digits_2_inv _ _ _ E3) as [ns [Hs ->]].
  destruct (digits_3_inv _ _ _ E4) as [nms [Hms ->]].
  exists nh, nm, ns, nms. repeat split; assumption.
Qed.

(** Whatever the subtitle pattern matches, the eight numeric captures are
    decimal fields, and the segment built from them has the times they
    spell. *)
Lemma srt_here_segment s m r :
  srt_here s = Some (m, r) ->
  exists sh sm ss sms eh em es ems,
    srt_segment m
    = mkSegment (fin (seconds_of sh sm ss sms)) (fin (seconds_of eh em es ems))
        (replace_newlines (trim (g10 m))) (Fin 0).
Proof.
  unfold srt_here.
  destruct (digits_plus s) as [[i r1]|]; cbn [obind]; [|discriminate].
  destruct (strip_prefix [LF] r1) as [r2|]; cbn [obind]; [|discriminate].
  destruct (timecode r2) as [[[[[sh sm] ss] sms] r3]|] eqn:E1;
    cbn [obind]; [|discriminate].
  destruct (strip_prefix (js " --> ") r3) as [r4|]; cbn [obind];
    [|discriminate].
  destruct (timecode r4) as [[[[[eh em] es] ems] r5]|] eqn:E2;
    cbn [obind]; [|discriminate].
  destruct (strip_prefix [LF] r5) as [r6|]; cbn [obind]; [|discriminate].
  destruct (lazy_text r6) as [t r7]. intros H. injection H as <- _.
  destruct (timecode_inv _ _ _ _ _ _ E1)
    as [a1 [a2 [a3 [a4 [H1 [H2 [H3 [H4 [-> [-> [-> ->]]]]]]]]]]].
  destruct (timecode_inv _ _ _ _ _ _ E2)
    as [b1 [b2 [b3 [b4 [K1 [K2 [K3 [K4 [-> [-> [-> ->]]]]]]]]]]].
  exists a1, a2, a3, a4, b1, b2, b3, b4.
  unfold srt_segment. cbn [g2 g3 g4 g5 g6 g7 g8 g9 g10].
  rewrite !parseInt_pad2, !parseInt_pad3 by assumption.
  now rewrite !seconds_arith.
Qed.

Lemma exec_all_In (M : Type) (here : jsstring -> option (M * jsstring))
  k s m :
  In m (exec_all here k s) -> exists s' r, here s' = Some (m, r).
Proof.
  revert k. induction s as [|c s IH]; intros k; cbn [exec_all];
    [intros []|].
  destruct k as [|k]; [|apply IH].
  destruct (here (c :: s)) as [[m' r]|] eqn:E; [|apply IH].
  intros [<-|Hin]; [now exists (c :: s), r | now apply IH in Hin].
Qed.

Lemma bracket_here_inv s h m sec t :
  bracket_here s = Some (h, m, sec, t) ->
  exists nh nm ns,
    (nh < 100)%nat /\ (nm < 100)%nat /\ (ns < 100)%nat
    /\ h = pad2 nh /\ m = pad2 nm /\ sec = pad2 ns.
Proof.
  unfold bracket_here.
  destruct (strip_prefix (js "[") s) as [r0|]; cbn [obind]; [|discriminate].
  destruct (digits 2 r0) as [[h' r1]|] eqn:E1; cbn [obind]; [|discriminate].
  destruct (strip_prefix (js ":") r1) as [r2|]; cbn [obind]; [|discriminate].
  destruct (digits 2 r2) as [[m' r3]|] eqn:E2; cbn [obind]; [|discriminate].
  destruct (strip_prefix (js ":") r3) as [r4|]; cbn [obind]; [|discriminate].
  destruct (digits 2 r4) as [[s' r5]|] eqn:E3; cbn [obind]; [|discriminate].
  destruct (strip_prefix (js "]") r5) as [r6|]; cbn [obind]; [|discriminate].
  intros H. injection H as <- <- <- _.
  destruct (digits_2_inv _ _ _ E1) as [nh [Hh ->]].
  destruct (digits_2_inv _ _ _ E2) as [nm [Hm ->]].
  destruct (digits_2_inv _ _ _ E3) as [ns [Hs ->]].
  exists nh, nm, ns. repeat split; assumption.
Qed.

Lemma bracket_match_inv line x :
  bracket_match line = Some x -> exists s, bracket_here s = Some x.
Proof.
  induction line as [|c line IH]; cbn [bracket_match].
  - destruct (bracket_here []) eqn:E; [|discriminate].
    intros H. injection H as <-. now exists [].
  - destruct (bracket_here (c :: line)) eqn:E.
    + intros H. injection H as <-. now exists (c :: line).
    + exact IH.
Qed.

(** Whatever line the bracketed pattern matches, the segment starts at the
    time its three fields spell and ends five seconds later. *)
Lemma bracket_line_segment_inv line seg :
  In seg (bracket_line_segment line) ->
  exists h m s,
    start seg = fin (seconds_of h m s 0)
    /\ end_ seg = nadd (fin (seconds_of h m s 0)) (Fin 5).
Proof.
  unfold bracket_line_segment.
  destruct (bracket_match line) as [[[[h m] s] t]|] eqn:E; [|contradiction].
  destruct (bracket_match_inv _ _ E) as [s' Hhere].
  destruct (bracket_here_inv _ _ _ _ _ Hhere)
    as [nh [nm [ns [Hh [Hm [Hs [-> [-> ->]]]]]]]].
  rewrite !parseInt_pad2 by assumption. rewrite seconds_arith_no_ms.
  intros [<-|[]]. exists nh, nm, ns. split; reflexivity.
Qed.

(** ** Times are numbers, and not negative ones *)

Lemma Qadd_nonneg (a b : Q) : 0 <= a -> 0 <= b -> 0 <= a + b.
Proof. intros Ha Hb. exact (Qplus_le_compat 0 a 0 b Ha Hb). Qed.

Lemma inject_nat_nonneg (n : nat) : 0 <= inject_Z (Z.of_nat n).
Proof. unfold Qle. simpl. lia. Qed.

Lemma seconds_of_nonneg h m s ms : 0 <= seconds_of h m s ms.
Proof.
  unfold seconds_of. repeat apply Qadd_nonneg.
  - apply Qmult_le_0_compat; [apply inject_nat_nonneg | discriminate].
  - apply Qmult_le_0_compat; [apply inject_nat_nonneg | discriminate].
  - apply inject_nat_nonneg.
  - apply Qmult_le_0_compat; [apply inject_nat_nonneg | discriminate].
Qed.

Lemma clock_fin (q : Q) : 0 <= q -> clock_time (fin q).
Proof.
  intros H. exists (Qred q). split; [reflexivity|].
  now rewrite Qred_correct.
Qed.

Lemma clock_plus_five (q : Q) :
  0 <= q -> clock_time (nadd (fin q) (Fin 5)).
Proof.
  intros H. unfold fin at 1. rewrite nadd_Fin. apply clock_fin.
  apply Qadd_nonneg; [now rewrite Qred_correct | discriminate].
Qed.

Lemma srt_clock content :
  Forall (fun seg => clock_time (start seg) /\ clock_time (end_ seg))
         (srt_segments content).
Proof.
  apply Forall_forall. intros seg Hin. unfold srt_segments in Hin.
  apply in_map_iff in Hin. destruct Hin as [m [<- Hin]].
  apply exec_all_In in Hin. destruct Hin as [s [r Hhere]].
  destruct (srt_here_segment _ _ _ Hhere)
    as [sh [sm [ss [sms [eh [em [es [ems ->]]]]]]]].
  cbn [start end_]. split; apply clock_fin, seconds_of_nonneg.
Qed.

Lemma bracket_clock content :
  Forall (fun seg => clock_time (start seg) /\ clock_time (end_ seg))
         (Upload.bracket_segments content).
Proof.
  rewrite bracket_segments_by_line. apply Forall_forall. intros seg Hin.
  apply in_flat_map in Hin. destruct Hin as [line [_ Hin]].
  destruct (bracket_line_segment_inv _ _ Hin) as [h [m [s [-> ->]]]].
  split; [apply clock_fin | apply clock_plus_five]; apply seconds_of_nonneg.
Qed.

Lemma spec_duration_bounds len :
  3 <= spec_duration len /\ spec_duration len <= 10.
Proof.
  unfold spec_duration. split.
  - apply Q.le_max_l.
  - apply Q.max_lub; [discriminate | apply Q.le_min_l].
Qed.

Lemma layout_timing (a : Q) l :
  0 <= a -> Forall plain_timing (layout (Fin a) l).
Proof.
  revert a. induction l as [|x l IH]; intros a Ha; cbn [layout];
    constructor.
  - destruct (duration_of_spec (trim x)) as [d [Hd Hq]].
    destruct (spec_duration_bounds (List.length (trim x))) as [Hlo Hhi].
    rewrite <- Hq in Hlo, Hhi.
    exists a, (Qred (a + d)). cbn [start end_]. rewrite Hd, nadd_Fin.
    split; [reflexivity|]. split; [reflexivity|]. split; [exact Ha|].
    rewrite Qred_correct. split.
    + apply Qplus_le_compat; [apply Qle_refl | exact Hlo].
    + apply Qplus_le_compat; [apply Qle_refl | exact Hhi].
  - destruct (duration_of_spec (trim x)) as [d [Hd Hq]].
    destruct (spec_duration_bounds (List.length (trim x))) as [Hlo _].
    rewrite <- Hq in Hlo. rewrite Hd, nadd_Fin. apply IH.
    rewrite Qred_correct. apply Qadd_nonneg; [exact Ha|].
    apply Qle_trans with 3; [discriminate | exact Hlo].
Qed.

Lemma plain_timing_all content : Forall plain_timing (plain_segments content).
Proof. unfold plain_segments. apply layout_timing. apply Qle_refl. Qed.

Lemma plain_timing_clock seg :
  plain_timing seg ->
  clock_time (start seg) /\ clock_time (end_ seg)
  /\ nlt (start seg) (end_ seg) = true.
Proof.
  intros [a [b [Hs [He [Ha [Hlo Hhi]]]]]]. rewrite Hs, He.
  assert (a < b) as Hlt.
  { apply Qlt_le_trans with (a + 3); [|exact Hlo].
    rewrite <- (Qplus_0_r a) at 1. apply Qplus_lt_r. reflexivity. }
  split; [exists a; auto|]. split.
  - exists b. split; [reflexivity|].
    apply Qle_trans with a; [exact Ha | now apply Qlt_le_weak].
  - now apply nlt_Fin_iff.
Qed.

Lemma plain_clock content :
  Forall (fun seg => clock_time (start seg) /\ clock_time (end_ seg))
         (plain_segments content).
Proof.
  eapply Forall_impl; [|apply plain_timing_all].
  intros seg H. apply plain_timing_clock in H. tauto.
Qed.

Lemma upload_parse_clock content :
  Forall (fun seg => clock_time (start seg) /\ clock_time (end_ seg))
         (Upload.parseTranscript content).
Proof.
  unfold Upload.parseTranscript.
  destruct (List.length (srt_segments content) =? 0) eqn:E1.
  - destruct (List.length (Upload.bracket_segments content) =? 0).
    + apply plain_clock.
    + apply bracket_clock.
  - rewrite E1. apply srt_clock.
Qed.

Lemma webhook_parse_clock content :
  Forall (fun seg => clock_time (start seg) /\ clock_time (end_ seg))
         (Webhook.parseTranscript content).
Proof.
  unfold Webhook.parseTranscript.
  destruct (List.length (srt_segments content) =? 0).
  - apply plain_clock.
  - apply srt_clock.
Qed.

(** X6.  Whatever the input, every segment either route parses starts and
    ends at a finite time that is not negative: no capture of the patterns
    can make [parseInt] give NaN, in neither version of
    [parseTranscript]. *)
Theorem segment_times_are_clock_times (content : jsstring) :
  Forall (fun seg => clock_time (start seg) /\ clock_time (end_ seg))
         (Upload.parseTranscript content)
  /\ Forall (fun seg => clock_time (start seg) /\ clock_time (end_ seg))
            (Webhook.parseTranscript content).
Proof.
  split; [apply upload_parse_clock | apply webhook_parse_clock].
Qed.




(** ** The webhook's body *)








(** ** The text of a segment *)

Lemma dropWhile_head (A : Type) (p : A -> bool) (l : list A) :
  match dropWhile p l with [] => True | c :: _ => p c = false end.
Proof.
  induction l as [|c l IH]; simpl; [exact I|].
  destruct (p c) eqn:E; [exact IH | exact E].
Qed.

Lemma dropWhile_app_last (A : Type) (p : A -> bool) (a : list A) c :
  p c = false -> dropWhile p (a ++ [c]) = dropWhile p a ++ [c].
Proof.
  intros Hc. induction a as [|x a IH]; simpl.
  - now rewrite Hc.
  - destruct (p x); [exact IH | reflexivity].
Qed.

Lemma trim_no_outer_space s : no_outer_space (trim s).
Proof.
  unfold no_outer_space, trim, trimEnd. split.
  - pose proof (dropWhile_head _ isWhiteSpace s) as Hhead.
    unfold trimStart. destruct (dropWhile isWhiteSpace s) as [|c t];
      [exact I|].
    cbn [rev]. rewrite (dropWhile_app_last _ isWhiteSpace (rev t) c Hhead).
    rewrite rev_app_distr. exact Hhead.
  - rewrite rev_involutive. apply dropWhile_head.
Qed.

Lemma not_space_not_LF c : isWhiteSpace c = false -> N.eqb c LF = false.
Proof.
  intros H. destruct (N.eqb c LF) eqn:E; [|reflexivity].
  apply N.eqb_eq in E. subst c. discriminate.
Qed.

Lemma replace_newlines_outer s :
  no_outer_space s -> no_outer_space (replace_newlines s).
Proof.
  unfold no_outer_space, replace_newlines. rewrite <- map_rev.
  intros [Hhead Hlast]. split.
  - destruct s as [|c s]; [exact I|]. cbn [List.map].
    now rewrite (not_space_not_LF c Hhead).
  - destruct (rev s) as [|c t]; [exact I|]. cbn [List.map].
    now rewrite (not_space_not_LF c Hlast).
Qed.

Lemma replace_newlines_no_LF s : forallb notLF (replace_newlines s) = true.
Proof.
  unfold replace_newlines. induction s as [|c s IH]; [reflexivity|].
  cbn [List.map forallb]. rewrite IH, andb_true_r. unfold notLF.
  destruct (N.eqb c LF) eqn:E; [reflexivity | now rewrite E].
Qed.

Lemma forallb_dropWhile (A : Type) (p q : A -> bool) (l : list A) :
  forallb q l = true -> forallb q (dropWhile p l) = true.
Proof.
  induction l as [|c l IH]; simpl; [reflexivity|].
  intros H. destruct (p c).
  - apply andb_prop in H. now apply IH.
  - exact H.
Qed.

Lemma forallb_rev (A : Type) (q : A -> bool) (l : list A) :
  forallb q (rev l) = forallb q l.
Proof.
  induction l as [|c l IH]; [reflexivity|].
  cbn [rev forallb]. rewrite forallb_app, IH. cbn [forallb].
  rewrite andb_true_r. apply andb_comm.
Qed.

Lemma forallb_trim (q : N -> bool) s :
  forallb q s = true -> forallb q (trim s) = true.
Proof.
  intros H. unfold trim, trimEnd, trimStart.
  rewrite forallb_rev. apply forallb_dropWhile.
  rewrite forallb_rev. now apply forallb_dropWhile.
Qed.

Lemma bracket_here_text s h m sec t :
  bracket_here s = Some (h, m, sec, t) ->
  forallb (fun c => negb (isLineTerminator c)) t = true.
Proof.
  unfold bracket_here.
  destruct (strip_prefix (js "[") s) as [r0|]; cbn [obind]; [|discriminate].
  destruct (digits 2 r0) as [[h' r1]|]; cbn [obind]; [|discriminate].
  destruct (strip_prefix (js ":") r1) as [r2|]; cbn [obind]; [|discriminate].
  destruct (digits 2 r2) as [[m' r3]|]; cbn [obind]; [|discriminate].
  destruct (strip_prefix (js ":") r3) as [r4|]; cbn [obind]; [|discriminate].
  destruct (digits 2 r4) as [[s' r5]|]; cbn [obind]; [|discriminate].
  destruct (strip_prefix (js "]") r5) as [r6|]; cbn [obind]; [|discriminate].
  intros H. injection H as _ _ _ <-.
  destruct (span (fun c => negb (isLineTerminator c))
              (dropWhile isWhiteSpace r6)) as [a r] eqn:E.
  exact (span_prefix _ _ _ _ _ E).
Qed.

Lemma srt_text content :
  Forall (fun seg => no_outer_space (text seg)
                     /\ forallb notLF (text seg) = true)
         (srt_segments content).
Proof.
  apply Forall_forall. intros seg Hin. unfold srt_segments in Hin.
  apply in_map_iff in Hin. destruct Hin as [m [<- _]].
  unfold srt_segment. cbn [text]. split.
  - apply replace_newlines_outer, trim_no_outer_space.
  - apply replace_newlines_no_LF.
Qed.

Lemma bracket_text_clean content :
  Forall (fun seg =>
            no_outer_space (text seg)
            /\ forallb (fun c => negb (isLineTerminator c)) (text seg) = true)
         (Upload.bracket_segments content).
Proof.
  rewrite bracket_segments_by_line. apply Forall_forall. intros seg Hin.
  apply in_flat_map in Hin. destruct Hin as [line [_ Hin]].
  unfold bracket_line_segment in Hin.
  destruct (bracket_match line) as [[[[h m] s] t]|] eqn:E; [|contradiction].
  destruct Hin as [<-|[]]. cbn [text].
  destruct (bracket_match_inv _ _ E) as [s' Hhere].
  split; [apply trim_no_outer_space|].
  apply forallb_trim. exact (bracket_here_text _ _ _ _ _ Hhere).
Qed.

Lemma layout_text t l :
  Forall (fun seg => no_outer_space (text seg)) (layout t l).
Proof.
  revert t. induction l as [|x l IH]; intros t; cbn [layout]; constructor.
  - apply trim_no_outer_space.
  - apply IH.
Qed.

(** X9.  Whatever the input, the text of every segment either route parses
    has no white space at its beginning or end.  The text of a segment
    read from a subtitle block holds no line feed (the lines of the block
    are joined by single spaces), and the text of a segment read from a
    bracketed line holds no line terminator at all, so that the carriage
    return of a line ending never reaches it. *)
Theorem segment_texts_are_trimmed (content : jsstring) :
  Forall (fun seg => no_outer_space (text seg))
         (Upload.parseTranscript content)
  /\ Forall (fun seg => no_outer_space (text seg))
            (Webhook.parseTranscript content)
  /\ Forall (fun seg => forallb notLF (text seg) = true)
            (srt_segments content)
  /\ Forall (fun seg =>
               forallb (fun c => negb (isLineTerminator c)) (text seg)
               = true)
            (Upload.bracket_segments content).
Proof.
  assert (Hsrt : Forall (fun seg => no_outer_space (text seg))
                        (srt_segments content)).
  { eapply Forall_impl; [|apply srt_text]. intros seg H. apply H. }
  assert (Hplain : Forall (fun seg => no_outer_space (text seg))
                          (plain_segments content))
    by apply layout_text.
  split; [|split; [|split]].
  - unfold Upload.parseTranscript.
    destruct (List.length (srt_segments content) =? 0) eqn:E1.
    + destruct (List.length (Upload.bracket_segments content) =? 0).
      * exact Hplain.
      * eapply Forall_impl; [|apply bracket_text_clean].
        intros seg H. apply H.
    + rewrite E1. exact Hsrt.
  - unfold Webhook.parseTranscript.
    destruct (List.length (srt_segments content) =? 0);
      [exact Hplain | exact Hsrt].
  - eapply Forall_impl; [|apply srt_text]. intros seg H. apply H.
  - eapply Forall_impl; [|apply bracket_text_clean]. intros seg H. apply H.
Qed.

(** ** A subtitle file, written and read back *)

Lemma span_app_stop (A : Type) (p : A -> bool) (a r : list A) :
  forallb p a = true ->
  match r with [] => True | c :: _ => p c = false end ->
  span p (a ++ r) = (a, r).
Proof.
  intros Ha Hr. induction a as [|x a IH]; cbn [app].
  - destruct r as [|c r]; [reflexivity|]. cbn [span]. now rewrite Hr.
  - cbn [forallb] in Ha. apply andb_prop in Ha. destruct Ha as [Hx Ha].
    cbn [span]. now rewrite Hx, (IH Ha).
Qed.











(** ** Text after the last terminator *)

Lemma sentence_here_plain s :
  forallb nonTerminator s = true -> sentence_here s = None.
Proof.
  intros H. unfold sentence_here. fold nonTerminator.
  rewrite (span_all _ _ _ H). now destruct s.
Qed.

Lemma sentence_here_stuck s :
  sentence_here s = None -> head_ok s -> forallb nonTerminator s = true.
Proof.
  intros Ehere Hhead. unfold sentence_here in Ehere.
  fold nonTerminator in Ehere.
  destruct (span nonTerminator s) as [a r1] eqn:Ea.
  pose proof (span_app _ _ _ _ _ Ea) as Hs.
  pose proof (span_prefix _ _ _ _ _ Ea) as Ha.
  pose proof (span_rest _ _ _ _ _ Ea) as Hr1.
  destruct a as [|x a].
  - simpl in Hs. subst r1. destruct s as [|c s]; [reflexivity|].
    simpl in Hhead. unfold nonTerminator in Hr1.
    rewrite Hhead in Hr1. discriminate.
  - destruct r1 as [|t r1].
    + rewrite app_nil_r in Hs. now subst s.
    + cbn [span] in Ehere. unfold nonTerminator in Hr1.
      apply negb_false_iff in Hr1. rewrite Hr1 in Ehere.
      destruct (span isTerminator r1); discriminate.
Qed.

Lemma sentence_here_none_app s tail :
  sentence_here s = None -> forallb nonTerminator tail = true ->
  sentence_here (s ++ tail) = None.
Proof.
  intros Hnone Htail. destruct s as [|c s].
  - now apply sentence_here_plain.
  - destruct (isTerminator c) eqn:Ec.
    + unfold sentence_here. cbn [app span]. now rewrite Ec.
    + apply sentence_here_plain. rewrite forallb_app, Htail, andb_true_r.
      apply sentence_here_stuck; [exact Hnone | exact Ec].
Qed.

Lemma sentence_here_app s m r tail :
  sentence_here s = Some (m, r) -> forallb nonTerminator tail = true ->
  sentence_here (s ++ tail) = Some (m, r ++ tail).
Proof.
  intros Hhere Htail. unfold sentence_here in Hhere.
  fold nonTerminator in Hhere.
  destruct (span nonTerminator s) as [a r1] eqn:Ea.
  destruct a as [|x a]; [discriminate|].
  destruct (span isTerminator r1) as [b r2] eqn:Eb.
  destruct b as [|y b]; [discriminate|].
  injection Hhere as <- <-.
  pose proof (span_app _ _ _ _ _ Ea) as Hs.
  pose proof (span_prefix _ _ _ _ _ Ea) as Ha.
  pose proof (span_app _ _ _ _ _ Eb) as Hr1.
  pose proof (span_prefix _ _ _ _ _ Eb) as Hb.
  pose proof (span_rest _ _ _ _ _ Eb) as Hr2.
  subst s r1. unfold sentence_here. fold nonTerminator.
  rewrite <- !app_assoc.
  rewrite (span_app_stop _ nonTerminator (x :: a) _ Ha).
  - rewrite (span_app_stop _ isTerminator (y :: b) _ Hb); [reflexivity|].
    destruct r2 as [|c r2]; [|exact Hr2].
    destruct tail as [|c tail]; [exact I|].
    cbn [forallb] in Htail. apply andb_prop in Htail.
    destruct Htail as [Hc _]. now apply negb_true_iff in Hc.
  - cbn [app forallb] in Hb |- *. apply andb_prop in Hb.
    destruct Hb as [Hy _]. unfold nonTerminator. now rewrite Hy.
Qed.

Lemma sentences_ignore_tail n s tail :
  (List.length s <= n)%nat -> forallb nonTerminator tail = true ->
  exec_all sentence_here 0 (s ++ tail) = exec_all sentence_here 0 s.
Proof.
  intros Hlen Htail. revert s Hlen.
  induction n as [|n IH]; intros s Hlen.
  - destruct s; [|simpl in Hlen; lia]. cbn [app].
    now rewrite (sentences_none 0 tail Htail).
  - destruct (sentence_here s) as [[m r]|] eqn:Ehere.
    + destruct (sentence_here_spec _ _ _ Ehere) as [Hs [Hm _]].
      rewrite (exec_all_match _ sentence_here s m m r Ehere Hs Hm).
      rewrite (exec_all_match _ sentence_here (s ++ tail) m m (r ++ tail)
                 (sentence_here_app s m r tail Ehere Htail));
        [| rewrite Hs; now rewrite app_assoc | exact Hm].
      f_equal. apply IH. subst s. rewrite length_app in Hlen.
      destruct m; [congruence | simpl in Hlen; lia].
    + destruct s as [|c s].
      * cbn [app]. now rewrite (sentences_none 0 tail Htail).
      * cbn [app exec_all].
        pose proof (sentence_here_none_app (c :: s) tail Ehere Htail) as E.
        cbn [app] in E. rewrite E, Ehere. apply IH. simpl in Hlen. lia.
Qed.

(** X11.  Text that follows the last terminator is lost: once the sentence
    pattern finds a match in the input, appending text without terminator
    changes nothing in the segments of the plain-text block; so for a
    transcript of one line the webhook's answer cannot depend on it. *)
Theorem trailing_text_is_dropped (content tail : jsstring) :
  forallb nonTerminator tail = true ->
  match_sentences content <> None ->
  plain_segments (content ++ tail) = plain_segments content
  /\ (forallb notLF (content ++ tail) = true ->
      Webhook.parseTranscript (content ++ tail)
      = Webhook.parseTranscript content).
Proof.
  intros Htail Hsome.
  assert (plain_segments (content ++ tail) = plain_segments content)
    as Hplain.
  { unfold plain_segments, match_sentences in *.
    rewrite (sentences_ignore_tail (List.length content) content tail
               (Nat.le_refl _) Htail).
    destruct (exec_all sentence_here 0 content); [congruence | reflexivity]. }
  split; [exact Hplain|].
  intros Hline. pose proof Hline as Hboth.
  rewrite forallb_app in Hboth. apply andb_prop in Hboth.
  destruct Hboth as [Hcontent _].
  rewrite (webhook_parse_plain _ (srt_segments_line _ Hline)).
  rewrite (webhook_parse_plain _ (srt_segments_line _ Hcontent)).
  exact Hplain.
Qed.

Lemma trailing_text_is_dropped_witness :
  plain_segments (js "Hi. Bye") = plain_segments (js "Hi.")
  /\ Webhook.parseTranscript (js "Hi. Bye") = Webhook.parseTranscript (js "Hi.").
Proof.
  destruct (trailing_text_is_dropped (js "Hi.") (js " Bye"))
    as [Hplain Hweb];
    [vm_compute; reflexivity | vm_compute; discriminate |].
  split; [exact Hplain|]. apply Hweb. vm_compute. reflexivity.
Defined.

(** ** The page and the upload route together *)

Lemma slider_round_trip k :
  (-10 <= k <= 10)%Z ->
  parseFloat (toString (Page.slider_value k)) = Page.slider_value k.
Proof.
  intros Hk. apply number_eqb_eq.
  replace k with (Z.of_nat (Z.to_nat (k + 10)) - 10)%Z by lia.
  apply (forallb_seq
           (fun n =>
              number_eqb
                (parseFloat (toString (Page.slider_value (Z.of_nat n - 10))))
                (Page.slider_value (Z.of_nat n - 10)))
           21);
    [vm_compute; reflexivity | lia].
Qed.

(** X12.  Submitting the page with the range input at any of its values
    ([k/2] for [k] from -10 to 10): without a file, or with an empty URL,
    the page shows the route's missing-fields message; otherwise it shows
    a result, never an error, and the threshold the route applied is
    exactly the value of the range input, written to text by the page and
    read back by the route. *)
Theorem page_submit (analyze : jsstring -> number)
  (file : option jsstring) (url : jsstring) (k : Z) :
  (-10 <= k <= 10)%Z ->
  let st := Page.mkState file url (Page.slider_value k) in
  match file with
  | Some content =>
      if truthy url
      then exists body,
             Page.handleSubmit analyze st = Page.mkOutcome (Some body) []
             /\ Upload.threshold body = Page.slider_value k
             /\ Upload.segments body
                = analyzeSentiment analyze (Upload.parseTranscript content)
                    (Page.slider_value k)
      else Page.handleSubmit analyze st
           = Page.mkOutcome None (js "Missing required fields")
  | None =>
      Page.handleSubmit analyze st
      = Page.mkOutcome None (js "Missing required fields")
  end.
Proof.
  intros Hk st. unfold Page.handleSubmit, Page.formData, st.
  cbn [Page.transcriptFile Page.videoUrl Page.sentimentThreshold].
  destruct file as [content|]; [|reflexivity].
  destruct (truthy url) eqn:Hurl.
  - rewrite (upload_POST_valid analyze content url _ Hurl). cbv zeta.
    cbn [string_of_field]. rewrite (slider_round_trip k Hk).
    eexists. split; [reflexivity|].
    cbn [Upload.threshold Upload.segments]. split; reflexivity.
  - unfold Upload.POST. cbn [Upload.form_transcript Upload.form_videoUrl].
    rewrite Hurl. reflexivity.
Qed.

Lemma page_submit_witness :
  exists body,
    Page.handleSubmit demo_analyze
      (Page.mkState (Some (js "Great news. Terrible news.")) (js "v.mp4")
         (Page.slider_value (-5)))
    = Page.mkOutcome (Some body) []
    /\ Upload.threshold body = Page.slider_value (-5)
    /\ Upload.segments body
       = analyzeSentiment demo_analyze
           (Upload.parseTranscript (js "Great news. Terrible news."))
           (Page.slider_value (-5)).
Proof.
  assert (Hk : (-10 <= -5 <= 10)%Z) by lia.
  exact (page_submit demo_analyze (Some (js "Great news. Terrible news."))
           (js "v.mp4") (-5) Hk).
Defined.

(** ** Files whose lines end in CR LF *)

Lemma no_digit_LF_tail c s : no_digit_LF (c :: s) = true -> no_digit_LF s = true.
Proof.
  cbn [no_digit_LF]. intros H. apply andb_prop in H. apply H.
Qed.

Lemma digits_then_LF d r :
  forallb isDigit d = true -> no_digit_LF (d ++ LF :: r) = true -> d = [].
Proof.
  induction d as [|x d IH]; [reflexivity|].
  intros Hd H. exfalso. cbn [forallb] in Hd. apply andb_prop in Hd.
  destruct Hd as [Hx Hd]. destruct d as [|y d].
  - cbn [app no_digit_LF] in H. rewrite Hx, N.eqb_refl in H. discriminate.
  - apply no_digit_LF_tail in H. specialize (IH Hd H). discriminate.
Qed.

Lemma srt_here_no_digit_LF s : no_digit_LF s = true -> srt_here s = None.
Proof.
  intros H. unfold srt_here, digits_plus.
  destruct (span isDigit s) as [d r] eqn:E.
  destruct d as [|x d]; [reflexivity|]. cbn [obind].
  destruct r as [|c r]; [reflexivity|]. cbn [strip_prefix].
  destruct (N.eqb LF c) eqn:Ec; [|reflexivity].
  apply N.eqb_eq in Ec. subst c.
  rewrite (span_app _ _ _ _ _ E) in H.
  pose proof (digits_then_LF _ _ (span_prefix _ _ _ _ _ E) H). discriminate.
Qed.

Lemma srt_segments_no_digit_LF s :
  no_digit_LF s = true -> srt_segments s = [].
Proof.
  intros H. unfold srt_segments.
  assert (forall k, exec_all srt_here k s = []) as ->; [|reflexivity].
  induction s as [|c s IH]; intros k; [reflexivity|].
  cbn [exec_all]. rewrite (srt_here_no_digit_LF _ H).
  apply no_digit_LF_tail in H. destruct k; now apply IH.
Qed.

(** X13.  The subtitle pattern wants a line feed directly after the index
    and directly after each time-code line, so an input in which no line
    feed directly follows a digit (a subtitle file with CR LF line
    endings, for one) is never read as subtitle blocks: the upload route
    goes on to the bracketed lines and the plain-text block, the webhook
    straight to the plain-text block. *)
Theorem crlf_file_is_not_subtitles (content : jsstring) :
  no_digit_LF content = true ->
  srt_segments content = []
  /\ Webhook.parseTranscript content = plain_segments content
  /\ Upload.parseTranscript content
     = match Upload.bracket_segments content with
       | [] => plain_segments content
       | _ :: _ => Upload.bracket_segments content
       end.
Proof.
  intros H. pose proof (srt_segments_no_digit_LF content H) as Hsrt.
  split; [exact Hsrt|]. split; [now apply webhook_parse_plain|].
  unfold Upload.parseTranscript. rewrite Hsrt. cbn [List.length Nat.eqb].
  now destruct (Upload.bracket_segments content).
Qed.

Lemma crlf_file_is_not_subtitles_witness :
  no_digit_LF crlf_file = true
  /\ srt_segments crlf_file = []
  /\ List.map start (Upload.parseTranscript crlf_file) = [Fin 0]
  /\ List.map end_ (Upload.parseTranscript crlf_file) = [Fin (51 # 10)].
Proof.
  assert (H : no_digit_LF crlf_file = true) by (vm_compute; reflexivity).
  split; [exact H|].
  split; [exact (proj1 (crlf_file_is_not_subtitles crlf_file H))|].
  split; vm_compute; reflexivity.
Defined.
